(** * filesystem-mcp-server: file operations, diffing, search, watcher
      registry and the TTL cache of the resource layer

    A shallow embedding of [file-operations.ts], [advanced-operations.ts]
    and the cache part of [server.ts].  JavaScript strings are sequences of
    UTF-16 code units ([list Z]); paths, messages and error strings are
    Rocq strings; buffers and file contents are sequences of bytes
    ([list Z], each in 0..255); [Map]s are [gmap]s. *)

From stdpp Require Import gmap strings list fin_maps pretty.
From Stdlib Require Import ZArith Lia Sorted.

(** Text of a JavaScript string, as UTF-16 code units. *)
Abbreviation text := (list Z).
(** Contents of a Node [Buffer]. *)
Abbreviation bytes := (list Z).

(** ** The UTF-8 codec behind [fs.writeFile(.., 'utf8')], [fs.readFile(..,
    'utf8')] and [Buffer#toString('utf8')]. *)
Module Utf8.
Local Open Scope Z_scope.

Definition is_high_surrogate (c : Z) : bool := (0xD800 <=? c) && (c <=? 0xDBFF).
Definition is_low_surrogate (c : Z) : bool := (0xDC00 <=? c) && (c <=? 0xDFFF).
Definition replacement : Z := 0xFFFD.

(** A string whose surrogates come in pairs, every unit being 16-bit. *)
Fixpoint well_formed (s : text) : bool :=
  match s with
  | [] => true
  | c :: r =>
      if is_high_surrogate c then
        match r with
        | d :: r' => is_low_surrogate d && well_formed r'
        | [] => false
        end
      else negb (is_low_surrogate c) && (0 <=? c) && (c <=? 0xFFFF) && well_formed r
  end.

(** Code points of a string; a lone surrogate becomes U+FFFD, as the
    encoder writes it. *)
Fixpoint code_points (s : text) : list Z :=
  match s with
  | [] => []
  | c :: r =>
      if is_high_surrogate c then
        match r with
        | d :: r' =>
            if is_low_surrogate d
            then (0x10000 + (c - 0xD800) * 0x400 + (d - 0xDC00)) :: code_points r'
            else replacement :: code_points r
        | [] => [replacement]
        end
      else if is_low_surrogate c then replacement :: code_points r
      else c :: code_points r
  end.

(** [cp >> k] is written [cp / 2^k] and [cp & 0x3F] is [cp mod 64]. *)
Definition encode_code_point (cp : Z) : bytes :=
  if cp <? 0x80 then [cp]
  else if cp <? 0x800 then [0xC0 + cp / 64; 0x80 + cp mod 64]
  else if cp <? 0x10000 then
    [0xE0 + cp / 4096; 0x80 + (cp / 64) mod 64; 0x80 + cp mod 64]
  else
    [0xF0 + cp / 262144; 0x80 + (cp / 4096) mod 64;
     0x80 + (cp / 64) mod 64; 0x80 + cp mod 64].

Definition encode (s : text) : bytes :=
  flat_map encode_code_point (code_points s).

Definition is_continuation (b : Z) : bool := (0x80 <=? b) && (b <=? 0xBF).

(** Allowed second byte of a three-byte sequence (no overlong forms, no
    surrogates). *)
Definition second_of_three (b0 b1 : Z) : bool :=
  if b0 =? 0xE0 then (0xA0 <=? b1) && (b1 <=? 0xBF)
  else if b0 =? 0xED then (0x80 <=? b1) && (b1 <=? 0x9F)
  else is_continuation b1.

(** Allowed second byte of a four-byte sequence (no overlong forms,
    nothing above U+10FFFF). *)
Definition second_of_four (b0 b1 : Z) : bool :=
  if b0 =? 0xF0 then (0x90 <=? b1) && (b1 <=? 0xBF)
  else if b0 =? 0xF4 then (0x80 <=? b1) && (b1 <=? 0x8F)
  else is_continuation b1.

(** Decoding to code points: an ill-formed prefix yields one U+FFFD and
    decoding resumes at the offending byte. *)
Fixpoint decode_code_points (bs : bytes) : list Z :=
  match bs with
  | [] => []
  | b0 :: r0 =>
      if b0 <? 0x80 then b0 :: decode_code_points r0
      else if (0xC2 <=? b0) && (b0 <=? 0xDF) then
        match r0 with
        | b1 :: r1 =>
            if is_continuation b1
            then ((b0 - 0xC0) * 64 + (b1 - 0x80)) :: decode_code_points r1
            else replacement :: decode_code_points r0
        | [] => [replacement]
        end
      else if (0xE0 <=? b0) && (b0 <=? 0xEF) then
        match r0 with
        | b1 :: r1 =>
            if second_of_three b0 b1 then
              match r1 with
              | b2 :: r2 =>
                  if is_continuation b2
                  then ((b0 - 0xE0) * 4096 + (b1 - 0x80) * 64 + (b2 - 0x80))
                         :: decode_code_points r2
                  else replacement :: decode_code_points r1
              | [] => [replacement]
              end
            else replacement :: decode_code_points r0
        | [] => [replacement]
        end
      else if (0xF0 <=? b0) && (b0 <=? 0xF4) then
        match r0 with
        | b1 :: r1 =>
            if second_of_four b0 b1 then
              match r1 with
              | b2 :: r2 =>
                  if is_continuation b2 then
                    match r2 with
                    | b3 :: r3 =>
                        if is_continuation b3
                        then ((b0 - 0xF0) * 262144 + (b1 - 0x80) * 4096
                              + (b2 - 0x80) * 64 + (b3 - 0x80))
                               :: decode_code_points r3
                        else replacement :: decode_code_points r2
                    | [] => [replacement]
                    end
                  else replacement :: decode_code_points r1
              | [] => [replacement]
              end
            else replacement :: decode_code_points r0
        | [] => [replacement]
        end
      else replacement :: decode_code_points r0
  end.

(** UTF-16 code units of one code point. *)
Definition utf16_units (cp : Z) : text :=
  if cp <? 0x10000 then [cp]
  else [0xD800 + (cp - 0x10000) / 0x400; 0xDC00 + (cp - 0x10000) mod 0x400].

Definition decode (bs : bytes) : text :=
  flat_map utf16_units (decode_code_points bs).

(** Unicode scalar values: what a well-formed string is made of. *)
Definition scalar (cp : Z) : Prop :=
  (0 <= cp < 0xD800) \/ (0xE000 <= cp < 0x110000).

End Utf8.


(** ** JavaScript string and array primitives used by the operations *)
Module Js.
Local Open Scope Z_scope.

Definition LF : Z := 10.
Definition SPACE : Z := 32.

(** Code units of an ASCII literal. *)
Definition of_string (s : string) : text :=
  (fun a => Z.of_N (Ascii.N_of_ascii a)) <$> String.list_ascii_of_string s.

(** The class [\s] of a regular expression, which is also what
    [String#trim] strips (white space and line terminators). *)
Definition is_space (c : Z) : bool :=
  ((9 <=? c) && (c <=? 13)) || (c =? 32) || (c =? 0xA0) || (c =? 0x1680)
  || ((0x2000 <=? c) && (c <=? 0x200A)) || (c =? 0x2028) || (c =? 0x2029)
  || (c =? 0x202F) || (c =? 0x205F) || (c =? 0x3000) || (c =? 0xFEFF).

(** [s.split('\n')]: never empty, [''.split('\n')] is [['']]. *)
Fixpoint split_lines (s : text) : list text :=
  match s with
  | [] => [[]]
  | c :: r =>
      if c =? LF then [] :: split_lines r
      else match split_lines r with
           | l :: ls => (c :: l) :: ls
           | [] => [[c]]
           end
  end.

(** [ls.join('\n')]. *)
Fixpoint join_lines (ls : list text) : text :=
  match ls with
  | [] => []
  | l :: ls' =>
      match ls' with
      | [] => l
      | _ :: _ => l ++ LF :: join_lines ls'
      end
  end.

(** [s.replace(/\s+/g, ' ')]: every maximal run of white space becomes one
    space; [in_run] tells that the previous unit was white space. *)
Fixpoint replace_space_runs (in_run : bool) (s : text) : text :=
  match s with
  | [] => []
  | c :: r =>
      if is_space c
      then (if in_run then replace_space_runs true r
            else SPACE :: replace_space_runs true r)
      else c :: replace_space_runs false r
  end.

Fixpoint trim_start (s : text) : text :=
  match s with
  | [] => []
  | c :: r => if is_space c then trim_start r else s
  end.

(** [s.trim()]. *)
Definition trim (s : text) : text := rev (trim_start (rev (trim_start s))).

(** [a.slice(start, end)] for indices within [0 ..]; both ends are clamped
    to the length and an end before the start gives the empty array. *)
Definition slice {A} (l : list A) (start stop : nat) : list A :=
  take (stop - start)%nat (drop start l).

(** [a.slice(-n)]: the last [n] elements, all of them when there are fewer. *)
Definition slice_last {A} (l : list A) (n : nat) : list A :=
  drop (length l - n)%nat l.

(** [lines[i] || '']: an index out of range reads [undefined], and both
    [undefined] and the empty string are falsy. *)
Definition index_or_empty (lines : list text) (i : nat) : text :=
  default [] (lines !! i).

End Js.

(** ** Results and exceptions *)

(** The envelope every operation returns. *)
Record FileOperationResult (D : Type) := mkResult {
  success : bool;
  message : string;
  path : option string;
  data : option D;
  error : option string
}.
Arguments mkResult {D} _ _ _ _ _.
Arguments success {D} _.
Arguments message {D} _.
Arguments path {D} _.
Arguments data {D} _.
Arguments error {D} _.

Inductive FileEncoding := utf8 | utf16le | latin1 | base64 | hex | ascii | binary.

#[global] Instance FileEncoding_eq_dec : EqDecision FileEncoding.
Proof. solve_decision. Defined.

(** ** The file system the operations run against *)
Module Fs.

Inductive node := File (content : bytes) | Directory.

Definition is_directory (n : node) : bool :=
  match n with Directory => true | File _ => false end.

(** [stats.size]; a directory's size is whatever the OS reports, taken as 0. *)
Definition size (n : node) : nat :=
  match n with File b => length b | Directory => 0 end.

Inductive errno := ENOENT | EISDIR | ENOTDIR | EEXIST.

Definition errno_text (e : errno) : string :=
  match e with
  | ENOENT => "ENOENT: no such file or directory"
  | EISDIR => "EISDIR: illegal operation on a directory"
  | ENOTDIR => "ENOTDIR: not a directory"
  | EEXIST => "EEXIST: file already exists"
  end.

(** What a [try] block can catch: a schema violation, an OS error, or an
    error of a library. *)
Inductive exception :=
  | ZodError (issue : string)
  | SystemError (code : errno) (syscall : string) (p : string)
  | Error (reason : string).

(** [error.message]. *)
Definition exception_message (e : exception) : string :=
  match e with
  | ZodError issue => issue
  | SystemError code syscall p =>
      errno_text code +:+ ", " +:+ syscall +:+ " '" +:+ p +:+ "'"
  | Error reason => reason
  end.

(** Computations that may throw. *)
Definition throws (A : Type) : Type := exception + A.
Definition ret {A} (a : A) : throws A := inr a.
Definition throw {A} (e : exception) : throws A := inl e.
Definition bind {A B} (m : throws A) (k : A -> throws B) : throws B :=
  match m with inl e => inl e | inr a => k a end.

Inductive flag := flag_w | flag_a.

Section Calls.
(** [path.dirname], from Node's path library. *)
Variable dirname : string -> string.

Definition access (p : string) (fs : gmap string node) : throws unit :=
  match fs !! p with
  | Some _ => ret tt
  | None => throw (SystemError ENOENT "access" p)
  end.

Definition stat (p : string) (fs : gmap string node) : throws node :=
  match fs !! p with
  | Some n => ret n
  | None => throw (SystemError ENOENT "stat" p)
  end.

(** [fs.readFile(p)]: the whole content. *)
Definition readFile (p : string) (fs : gmap string node) : throws bytes :=
  match fs !! p with
  | Some (File b) => ret b
  | Some Directory => throw (SystemError EISDIR "read" p)
  | None => throw (SystemError ENOENT "open" p)
  end.

(** [fs.writeFile(p, data, {flag})]: the parent must be a directory and
    [p] must not be one; ['w'] truncates, ['a'] appends. *)
Definition writeFile (p : string) (d : bytes) (f : flag)
    (fs : gmap string node) : throws (gmap string node) :=
  match fs !! p with
  | Some Directory => throw (SystemError EISDIR "open" p)
  | Some (File old) =>
      ret (<[p := File (match f with flag_w => d | flag_a => old ++ d end)]> fs)
  | None =>
      match fs !! dirname p with
      | Some Directory => ret (<[p := File d]> fs)
      | Some (File _) => throw (SystemError ENOTDIR "open" p)
      | None => throw (SystemError ENOENT "open" p)
      end
  end.

(** [fs.mkdir(d, {recursive: true})]: creates the missing ancestors, is
    content with an existing directory; [depth] bounds the number of
    ancestors visited. *)
Fixpoint mkdir_recursive (depth : nat) (d : string)
    (fs : gmap string node) : throws (gmap string node) :=
  match fs !! d with
  | Some Directory => ret fs
  | Some (File _) => throw (SystemError EEXIST "mkdir" d)
  | None =>
      match depth with
      | O => throw (SystemError ENOENT "mkdir" d)
      | S k =>
          if String.eqb (dirname d) d then ret (<[d := Directory]> fs)
          else bind (mkdir_recursive k (dirname d) fs)
                 (fun fs' => ret (<[d := Directory]> fs'))
      end
  end.

Definition mkdir_p (d : string) (fs : gmap string node) :=
  mkdir_recursive (String.length d) d fs.

Definition unlink (p : string) (fs : gmap string node)
    : throws (gmap string node) :=
  match fs !! p with
  | Some (File _) => ret (delete p fs)
  | Some Directory => throw (SystemError EISDIR "unlink" p)
  | None => throw (SystemError ENOENT "unlink" p)
  end.

(** [k] lies below the directory [p]. *)
Definition below (p k : string) : bool := String.prefix (p +:+ "/") k.

(** [fs.rmdir(p, {recursive: true})]: the directory and all below it. *)
Definition rmdir_recursive (p : string) (fs : gmap string node)
    : throws (gmap string node) :=
  match fs !! p with
  | Some Directory =>
      ret (filter (fun kv => kv.1 <> p /\ below p kv.1 = false) fs)
  | Some (File _) => throw (SystemError ENOTDIR "rmdir" p)
  | None => throw (SystemError ENOENT "rmdir" p)
  end.
End Calls.

End Fs.

(** ** file-operations.ts *)
Module FileOperations.
Import Fs.
Local Open Scope Z_scope.

Record ReadFileArgs := {
  read_path : string;
  read_encoding : option FileEncoding;
  read_offset : option Z;
  read_limit : option Z
}.

Record WriteFileArgs := {
  write_path : string;
  write_content : text;
  write_encoding : option FileEncoding;
  write_createDirs : option bool;
  write_append : option bool
}.

Record DeleteFileArgs := {
  delete_path : string;
  delete_recursive : option bool;
  delete_force : option bool
}.

(** [content: string | Buffer]. *)
Inductive content_value :=
  | StringContent (s : text)
  | BufferContent (b : bytes).

Record ReadData := {
  content : content_value;
  encoding : FileEncoding;
  size : nat
}.

Record WriteData := {
  written_size : nat;
  written_encoding : FileEncoding;
  created : bool
}.

Inductive deleted_type := deleted_directory | deleted_file.

Record DeleteData := {
  type : deleted_type;
  deleted_size : nat
}.

(** [z.number().int().min(m).optional()]. *)
Definition at_least (m : Z) (v : option Z) : bool :=
  match v with Some x => m <=? x | None => true end.

(** The schemas of types.ts; a violation throws, and the first issue
    stands for zod's report. *)
Definition ReadFileSchema (args : ReadFileArgs)
    : throws (string * FileEncoding * option Z * option Z) :=
  if String.eqb (read_path args) "" then throw (ZodError "Path is required")
  else if negb (at_least 0 (read_offset args))
  then throw (ZodError "Number must be greater than or equal to 0")
  else if negb (at_least 1 (read_limit args))
  then throw (ZodError "Number must be greater than or equal to 1")
  else ret (read_path args, default utf8 (read_encoding args),
            read_offset args, read_limit args).

Definition WriteFileSchema (args : WriteFileArgs)
    : throws (string * text * FileEncoding * bool * bool) :=
  if String.eqb (write_path args) "" then throw (ZodError "Path is required")
  else ret (write_path args, write_content args,
            default utf8 (write_encoding args),
            default false (write_createDirs args),
            default false (write_append args)).

Definition DeleteFileSchema (args : DeleteFileArgs)
    : throws (string * bool * bool) :=
  if String.eqb (delete_path args) "" then throw (ZodError "Path is required")
  else ret (delete_path args, default false (delete_recursive args),
            default false (delete_force args)).

(** The [catch] clause shared by the operations. *)
Definition failed {D} (what : string) (p : string) (e : exception)
    : FileOperationResult D :=
  mkResult false (what +:+ exception_message e) (Some p) None
    (Some (exception_message e)).

(** [v !== undefined]. *)
Definition defined (v : option Z) : bool :=
  match v with Some _ => true | None => false end.

(** [x || 0] and the truthiness of an optional number. *)
Definition or_zero (v : option Z) : Z :=
  match v with Some x => x | None => 0 end.
Definition truthy (v : option Z) : bool :=
  match v with Some x => negb (x =? 0) | None => false end.

(** [buffer.slice(start, end)] for non-negative bounds. *)
Definition buffer_slice (b : bytes) (start stop : Z) : bytes :=
  Js.slice b (Z.to_nat start) (Z.to_nat stop).

Section Operations.
Variable dirname : string -> string.
(** Node's codecs for the encodings other than utf8:
    [Buffer.from(s, enc)] and [buf.toString(enc)]. *)
Variable encode_other : FileEncoding -> text -> bytes.
Variable decode_other : FileEncoding -> bytes -> text.

Definition buffer_from (enc : FileEncoding) (s : text) : bytes :=
  match enc with utf8 => Utf8.encode s | _ => encode_other enc s end.

Definition buffer_toString (enc : FileEncoding) (b : bytes) : text :=
  match enc with utf8 => Utf8.decode b | _ => decode_other enc b end.

(** [Buffer.isBuffer(content) ? content.length
                              : Buffer.byteLength(content, encoding)]. *)
Definition content_size (enc : FileEncoding) (c : content_value) : nat :=
  match c with
  | BufferContent b => length b
  | StringContent s => length (buffer_from enc s)
  end.

Definition readFile (args : ReadFileArgs) (fs : gmap string node)
    : FileOperationResult ReadData :=
  let run :=
    bind (ReadFileSchema args) (fun '(path, encoding, offset, limit) =>
    bind (access path fs) (fun _ =>
    bind (if defined offset || defined limit then
            bind (Fs.readFile path fs) (fun buffer =>
            let start := or_zero offset in
            let stop := if truthy limit then start + or_zero limit
                        else Z.of_nat (length buffer) in
            let slice := buffer_slice buffer start stop in
            ret (if decide (encoding = utf8)
                 then StringContent (buffer_toString encoding slice)
                 else BufferContent slice))
          else
            bind (Fs.readFile path fs) (fun buffer =>
            ret (StringContent (buffer_toString encoding buffer))))
      (fun content =>
    ret (mkResult true "File read successfully" (Some path)
           (Some {| content := content; encoding := encoding;
                    size := content_size encoding content |})
           None)))) in
  match run with
  | inr r => r
  | inl e => failed "Failed to read file: " (read_path args) e
  end.

Definition writeFile (args : WriteFileArgs) (fs : gmap string node)
    : FileOperationResult WriteData * gmap string node :=
  match WriteFileSchema args with
  | inl e => (failed "Failed to write file: " (write_path args) e, fs)
  | inr (path, content, encoding, createDirs, append) =>
      match (if createDirs then mkdir_p dirname (dirname path) fs
             else ret fs) with
      | inl e => (failed "Failed to write file: " (write_path args) e, fs)
      | inr fs1 =>
          let flag := if append then flag_a else flag_w in
          match Fs.writeFile dirname path (buffer_from encoding content)
                  flag fs1 with
          | inl e =>
              (failed "Failed to write file: " (write_path args) e, fs1)
          | inr fs2 =>
              (mkResult true
                 ("File " +:+ (if append then "appended to" else "written")
                    +:+ " successfully")
                 (Some path)
                 (Some {| written_size :=
                            length (buffer_from encoding content);
                          written_encoding := encoding;
                          created := negb append |})
                 None, fs2)
          end
      end
  end.

Definition deleteFile (args : DeleteFileArgs) (fs : gmap string node)
    : FileOperationResult DeleteData * gmap string node :=
  match DeleteFileSchema args with
  | inl e => (failed "Failed to delete: " (delete_path args) e, fs)
  | inr (path, recursive, force) =>
      match access path fs with
      | inl _ =>
          if negb force
          then (mkResult false "Path does not exist" (Some path) None
                  (Some "Path not found"), fs)
          else (mkResult true
                  "Path does not exist (ignored due to force flag)"
                  (Some path) None None, fs)
      | inr _ =>
          match stat path fs with
          | inl e => (failed "Failed to delete: " (delete_path args) e, fs)
          | inr stats =>
              let done fs' :=
                (mkResult true
                   ((if is_directory stats then "Directory" else "File")
                      +:+ " deleted successfully")
                   (Some path)
                   (Some {| type := if is_directory stats
                                    then deleted_directory
                                    else deleted_file;
                            deleted_size := Fs.size stats |})
                   None, fs') in
              if is_directory stats then
                if negb recursive
                then (mkResult false
                        "Cannot delete directory without recursive flag"
                        (Some path) None
                        (Some "Directory requires recursive deletion"), fs)
                else
                  match rmdir_recursive path fs with
                  | inl e =>
                      (failed "Failed to delete: " (delete_path args) e, fs)
                  | inr fs' => done fs'
                  end
              else
                match unlink path fs with
                | inl e =>
                    (failed "Failed to delete: " (delete_path args) e, fs)
                | inr fs' => done fs'
                end
          end
      end
  end.
End Operations.

End FileOperations.

(** ** advanced-operations.ts: comparing files and searching in files *)
Module AdvancedOperations.
Import Fs.

Record CompareFilesArgs := {
  file1 : string;
  file2 : string;
  ignoreWhitespace : option bool;
  ignoreCase : option bool
}.

Inductive difference_type := added | removed | modified.

Record difference := {
  line : nat;
  type : difference_type;
  content : text
}.

Record compared_file := {
  compared_path : string;
  lines : nat;
  size : nat
}.

Record CompareData := {
  identical : bool;
  differences : list difference;
  totalDifferences : nat;
  compared1 : compared_file;
  compared2 : compared_file;
  options : bool * bool
}.

#[global] Instance difference_type_eq_dec : EqDecision difference_type.
Proof. solve_decision. Defined.
#[global] Instance difference_eq_dec : EqDecision difference.
Proof. solve_decision. Defined.

Definition CompareFilesSchema (args : CompareFilesArgs)
    : throws (string * string * bool * bool) :=
  if String.eqb (file1 args) ""
  then throw (ZodError "First file path is required")
  else if String.eqb (file2 args) ""
  then throw (ZodError "Second file path is required")
  else ret (file1 args, file2 args, default false (ignoreWhitespace args),
            default false (ignoreCase args)).

(** [`- ${line1}\n+ ${line2}`]. *)
Definition modified_content (line1 line2 : text) : text :=
  Js.of_string "- " ++ line1 ++ Js.LF :: Js.of_string "+ " ++ line2.

(** One iteration of the comparison loop, at index [i]. *)
Definition compare_at (lines1 lines2 : list text) (i : nat)
    (differences : list difference) : list difference :=
  let line1 := Js.index_or_empty lines1 i in
  let line2 := Js.index_or_empty lines2 i in
  if bool_decide (line1 <> line2) then
    if bool_decide (length lines1 <= i) then
      differences ++ [{| line := i + 1; type := added; content := line2 |}]
    else if bool_decide (length lines2 <= i) then
      differences ++ [{| line := i + 1; type := removed; content := line1 |}]
    else
      differences ++ [{| line := i + 1; type := modified;
                         content := modified_content line1 line2 |}]
  else differences.

(** [for (let i = 0; i < maxLines; i++)], with [remaining = maxLines - i]. *)
Fixpoint compare_from (lines1 lines2 : list text) (i remaining : nat)
    (differences : list difference) : list difference :=
  match remaining with
  | O => differences
  | S k =>
      compare_from lines1 lines2 (S i) k (compare_at lines1 lines2 i differences)
  end.

Definition compare_lines (lines1 lines2 : list text) : list difference :=
  compare_from lines1 lines2 0 (Nat.max (length lines1) (length lines2)) [].

Section Compare.
(** [String#toLowerCase]. *)
Variable toLowerCase : text -> text.

(** The processed content of one file. *)
Definition normalize (ignoreWhitespace ignoreCase : bool) (content : text)
    : text :=
  let processed :=
    if ignoreWhitespace then Js.trim (Js.replace_space_runs false content)
    else content in
  if ignoreCase then toLowerCase processed else processed.

Definition compareFiles (args : CompareFilesArgs) (fs : gmap string node)
    : FileOperationResult CompareData :=
  let run :=
    bind (CompareFilesSchema args)
      (fun '(file1, file2, ignoreWhitespace, ignoreCase) =>
    bind (access file1 fs) (fun _ =>
    bind (access file2 fs) (fun _ =>
    bind (Fs.readFile file1 fs) (fun buffer1 =>
    bind (Fs.readFile file2 fs) (fun buffer2 =>
    let content1 := Utf8.decode buffer1 in
    let content2 := Utf8.decode buffer2 in
    let lines1 :=
      Js.split_lines (normalize ignoreWhitespace ignoreCase content1) in
    let lines2 :=
      Js.split_lines (normalize ignoreWhitespace ignoreCase content2) in
    let differences := compare_lines lines1 lines2 in
    let identical := bool_decide (length differences = 0) in
    ret (mkResult true
           (if identical then "Files are identical"
            else "Files differ: " +:+ pretty (length differences)
                   +:+ " differences found")
           (Some file1)
           (Some {| identical := identical;
                    differences := differences;
                    totalDifferences := length differences;
                    compared1 := {| compared_path := file1;
                                    lines := length lines1;
                                    size := length content1 |};
                    compared2 := {| compared_path := file2;
                                    lines := length lines2;
                                    size := length content2 |};
                    options := (ignoreWhitespace, ignoreCase) |})
           None)))))) in
  match run with
  | inr r => r
  | inl e =>
      mkResult false ("Failed to compare files: " +:+ exception_message e)
        (Some (file1 args)) None (Some (exception_message e))
  end.
End Compare.

(** *** searchInFiles *)

Record search_match := {
  match_line : nat;
  column : nat;
  matched : text;
  context : text
}.

Record SearchResult := {
  result_path : string;
  matches : list search_match;
  fileInfo : node
}.

Section Search.
Local Open Scope Z_scope.

(** The compiled [regex] (global flag set): [exec line lastIndex] is
    [regex.exec(line)] started at [lastIndex], giving [match.index] and
    [match[0]]; after a match [lastIndex] is the end of the match. *)
Variable exec : text -> nat -> option (nat * text).
Variable contextLines : nat.

(** The match pushed for a hit at [index] on line [i]. *)
Definition make_match (lines : list text) (i index : nat) (m : text)
    : search_match :=
  let startLine := Z.max 0 (Z.of_nat i - Z.of_nat contextLines) in
  let endLine :=
    Z.min (Z.of_nat (length lines) - 1) (Z.of_nat i + Z.of_nat contextLines) in
  let context :=
    Js.join_lines
      (Js.slice lines (Z.to_nat startLine) (Z.to_nat (endLine + 1))) in
  {| match_line := (i + 1)%nat; column := (index + 1)%nat;
     matched := m; context := context |}.

(** [while ((match = regex.exec(line)) !== null)]; [None] when the loop
    is still running after [fuel] iterations. *)
Fixpoint scan_line (fuel : nat) (lines : list text) (i : nat) (line : text)
    (lastIndex : nat) (found : list search_match)
    : option (list search_match) :=
  match fuel with
  | O => None
  | S k =>
      match exec line lastIndex with
      | None => Some found
      | Some (index, m) =>
          scan_line k lines i line (index + length m)%nat
            (found ++ [make_match lines i index m])
      end
  end.

(** [for (let i = 0; i < lines.length; i++)], with
    [remaining = lines.length - i]; empty lines are skipped. *)
Fixpoint scan_from (fuel : nat) (lines : list text) (i remaining : nat)
    (found : list search_match) : option (list search_match) :=
  match remaining with
  | O => Some found
  | S k =>
      match lines !! i with
      | None | Some [] => scan_from fuel lines (S i) k found
      | Some line =>
          match scan_line fuel lines i line 0 found with
          | None => None
          | Some found' => scan_from fuel lines (S i) k found'
          end
      end
  end.

(** The matches of one file's content. *)
Definition scan_content (fuel : nat) (content : text)
    : option (list search_match) :=
  let lines := Js.split_lines content in
  scan_from fuel lines 0 (length lines) [].

(** The loop over the files the glob returned, given by their full
    paths; a file that cannot be stat'ed or read, or is no regular file,
    is skipped. *)
Fixpoint search_files (fuel : nat) (files : list string)
    (fs : gmap string node) (results : list SearchResult)
    : option (list SearchResult) :=
  match files with
  | [] => Some results
  | fullPath :: rest =>
      match fs !! fullPath with
      | Some (File buffer) =>
          match scan_content fuel (Utf8.decode buffer) with
          | None => None
          | Some [] => search_files fuel rest fs results
          | Some found =>
              search_files fuel rest fs
                (results ++ [{| result_path := fullPath; matches := found;
                                fileInfo := File buffer |}])
          end
      | _ => search_files fuel rest fs results
      end
  end.
End Search.

(** *** watchFile and stopWatching *)

Record WatchFileArgs := {
  watch_path : string;
  watch_recursive : option bool;
  watch_ignoreInitial : option bool;
  watch_ignored : option (list string)
}.

Inductive event_type := add | change | unlink | addDir | unlinkDir.

Record FileWatchEvent := {
  event : event_type;
  event_path : string;
  stats : option node
}.

(** The options [chokidar.watch] is called with; [ignored = None] stands
    for the default pattern that ignores dotfiles, [depth = None] for
    [undefined]. *)
Record watch_options := {
  ignored : option (list string);
  options_ignoreInitial : bool;
  depth : option nat
}.

(** The static [watchers] map and the watchers chokidar has created.  A
    watcher is named by a number; [listening] holds, for each watcher, the
    [events] array its listeners push to, an array local to the call of
    watchFile that created the watcher. *)
Record registry := {
  watchers : gmap string nat;
  running : gset nat;
  listening : gmap nat (list FileWatchEvent);
  created_with : gmap nat watch_options;
  next_watcher : nat
}.

Definition no_watchers : registry :=
  {| watchers := ∅; running := ∅; listening := ∅; created_with := ∅;
     next_watcher := 0 |}.

Record WatchData := {
  watching : bool;
  recursive : bool;
  ignoreInitial : bool;
  events : list FileWatchEvent
}.

Record StopData := { still_watching : bool }.

Definition WatchFileSchema (args : WatchFileArgs)
    : throws (string * bool * bool * option (list string)) :=
  if String.eqb (watch_path args) "" then throw (ZodError "Path is required")
  else ret (watch_path args, default false (watch_recursive args),
            default true (watch_ignoreInitial args), watch_ignored args).

Section Watch.
(** [watcher.close()] of chokidar: the error it rejects with, if any. *)
Variable close_error : nat -> option string.

Definition close (w : nat) (reg : registry) : throws registry :=
  match close_error w with
  | Some reason => throw (Error reason)
  | None =>
      ret {| watchers := watchers reg; running := running reg ∖ {[w]};
             listening := listening reg; created_with := created_with reg;
             next_watcher := next_watcher reg |}
  end.

Definition stopWatching (p : string) (reg : registry)
    : FileOperationResult StopData * registry :=
  match watchers reg !! p with
  | Some watcher =>
      match close watcher reg with
      | inr reg' =>
          (mkResult true "Watching stopped successfully" (Some p)
             (Some {| still_watching := false |}) None,
           {| watchers := delete p (watchers reg'); running := running reg';
              listening := listening reg';
              created_with := created_with reg';
              next_watcher := next_watcher reg' |})
      | inl e =>
          (mkResult false
             ("Failed to stop watching: " +:+ exception_message e) (Some p)
             None (Some (exception_message e)), reg)
      end
  | None =>
      (mkResult false "No active watcher found for path" (Some p) None
         (Some "Watcher not found"), reg)
  end.

(** [chokidar.watch(path, options)] followed by [watchers.set] and the
    registration of the listeners on a fresh [events] array. *)
Definition start_watcher (p : string) (o : watch_options) (reg : registry)
    : nat * registry :=
  let watcher := next_watcher reg in
  (watcher,
   {| watchers := <[p := watcher]> (watchers reg);
      running := {[watcher]} ∪ running reg;
      listening := <[watcher := []]> (listening reg);
      created_with := <[watcher := o]> (created_with reg);
      next_watcher := S watcher |}).

Definition watchFile (args : WatchFileArgs) (fs : gmap string node)
    (reg : registry) : FileOperationResult WatchData * registry :=
  let failure e :=
    mkResult false ("Failed to start watching: " +:+ exception_message e)
      (Some (watch_path args)) None (Some (exception_message e)) in
  match WatchFileSchema args with
  | inl e => (failure e, reg)
  | inr (path, recursive, ignoreInitial, ignored) =>
      match access path fs with
      | inl e => (failure e, reg)
      | inr _ =>
          let reg1 :=
            if bool_decide (is_Some (watchers reg !! path))
            then (stopWatching path reg).2 else reg in
          let '(watcher, reg2) :=
            start_watcher path
              {| ignored := ignored; options_ignoreInitial := ignoreInitial;
                 depth := if recursive then None else Some 0 |} reg1 in
          let events := default [] (listening reg2 !! watcher) in
          (mkResult true "File watching started successfully" (Some path)
             (Some {| watching := true; recursive := recursive;
                      ignoreInitial := ignoreInitial;
                      events := Js.slice_last events 10 |})
             None, reg2)
      end
  end.

(** A running watcher reports an event: the listener pushes it. *)
Definition emit (watcher : nat) (e : FileWatchEvent) (reg : registry)
    : registry :=
  if bool_decide (watcher ∈ running reg) then
    {| watchers := watchers reg; running := running reg;
       listening := alter (fun events => events ++ [e]) watcher
                      (listening reg);
       created_with := created_with reg;
       next_watcher := next_watcher reg |}
  else reg.

(** [cleanup]: every registered watcher is closed, errors ignored, and
    the map is cleared. *)
Definition cleanup (reg : registry) : registry :=
  let closed :=
    map_fold (fun _ watcher r =>
                match close watcher r with inr r' => r' | inl _ => r end)
      reg (watchers reg) in
  {| watchers := ∅; running := running closed;
     listening := listening closed; created_with := created_with closed;
     next_watcher := next_watcher closed |}.
End Watch.

End AdvancedOperations.

(** ** Indices reported by the comparison loop *)
Module CompareLoop.

(** The indices at which an iteration of the loop finds
    [line1 !== line2]. *)
Definition mismatches (l1 l2 : list text) (indices : list nat) : list nat :=
  filter (fun i => Js.index_or_empty l1 i <> Js.index_or_empty l2 i) indices.

End CompareLoop.

(** ** What the claims say of a comparison, in their own terms *)
Module CompareSpec.

(** The indices below [n] at which two files do not hold the same line. *)
Definition differing (l1 l2 : list text) (n : nat) : list nat :=
  filter (fun i => l1 !! i <> l2 !! i) (seq 0 n).

End CompareSpec.

(** ** What the claims say of a search, in their own terms *)
Module SearchSpec.
Import Fs AdvancedOperations.

Section Spec.
Variable exec : text -> nat -> option (nat * text).
Variable contextLines : nat.

(** The lines [first .. last] of a file, joined with newlines, for the
    window of [contextLines] lines around line index [i]. *)
Definition context_block (lines : list text) (i : nat) : text :=
  let first := Z.to_nat (Z.max 0 (Z.of_nat i - Z.of_nat contextLines)) in
  let last :=
    Z.to_nat (Z.min (Z.of_nat (length lines) - 1)
                (Z.of_nat i + Z.of_nat contextLines)) in
  Js.join_lines
    ((fun j => Js.index_or_empty lines j) <$> seq first (last + 1 - first)).

(** What is claimed of one match of a file with the given lines: it sits
    on line index [i] (reported 1-based), it is a hit of the regular
    expression on that line at offset [index] (reported 1-based as the
    column), and its context is the block around [i]. *)
Definition match_spec (lines : list text) (m : search_match) : Prop :=
  exists (i : nat) (line : text) (lastIndex index : nat),
    match_line m = i + 1 /\ lines !! i = Some line /\
    exec line lastIndex = Some (index, matched m) /\
    column m = index + 1 /\
    context m = context_block lines i.

(** Ascending line, then ascending column. *)
Definition match_le (m1 m2 : search_match) : Prop :=
  match_line m1 < match_line m2
  \/ (match_line m1 = match_line m2 /\ column m1 <= column m2).

(** What holds of the matches found so far while line [i] is scanned from
    offset [k]. *)
Definition scan_inv (lines : list text) (i k : nat)
    (found : list search_match) : Prop :=
  Forall (match_spec lines) found
  /\ StronglySorted match_le found
  /\ Forall (fun m => match_line m < i + 1
                      \/ (match_line m = i + 1 /\ column m <= k + 1)) found.

(** Every result holds the matches of a regular file, scanned as above. *)
Definition result_spec (fs : gmap string node) (r : SearchResult) : Prop :=
  exists buffer : bytes,
    fs !! result_path r = Some (File buffer)
    /\ Forall (match_spec (Js.split_lines (Utf8.decode buffer))) (matches r)
    /\ StronglySorted match_le (matches r).
End Spec.

End SearchSpec.

(** ** What the claims say of the watchers, in their own terms *)
Module WatchSpec.
Import AdvancedOperations.

(** Registries that differ in nothing but the arrays of the listeners. *)
Definition same_but_events (r1 r2 : registry) : Prop :=
  watchers r1 = watchers r2 /\ running r1 = running r2
  /\ created_with r1 = created_with r2 /\ next_watcher r1 = next_watcher r2.

End WatchSpec.

(** ** Notions used to state further properties of the operations *)
Module MoreSpec.
Local Open Scope Z_scope.


End MoreSpec.

(** ** A well-formed watcher registry *)
Module RegistrySpec.
Import AdvancedOperations.

(** Every registered watcher runs, every running watcher was created
    before [next_watcher], and no watcher is registered under two paths. *)
Definition registry_ok (reg : registry) : Prop :=
  (forall p w, watchers reg !! p = Some w -> w ∈ running reg)
  /\ (forall w, w ∈ running reg -> w < next_watcher reg)
  /\ (forall p q w, watchers reg !! p = Some w -> watchers reg !! q = Some w ->
        p = q).

End RegistrySpec.

(** ** The two directions of a comparison *)
Module MirrorSpec.
Import AdvancedOperations.

Definition swap (t : difference_type) : difference_type :=
  match t with
  | added => removed
  | removed => added
  | modified => modified
  end.

(** The same line, seen from the other file: an added line is a removed
    one and conversely, with the same content. *)
Definition mirrored (x y : difference) : Prop :=
  line y = line x /\ type y = swap (type x)
  /\ (type x <> modified -> content y = content x).

End MirrorSpec.

(** ** file-operations.ts: getFileInfo *)
Module GetFileInfo.
Import Fs.

(** The file type that the mode of an [fs.Stats] holds. *)
Inductive file_kind :=
  | S_IFREG | S_IFDIR | S_IFLNK | S_IFIFO | S_IFSOCK | S_IFCHR | S_IFBLK.

#[global] Instance file_kind_eq_dec : EqDecision file_kind.
Proof. solve_decision. Defined.

(** The fields of [fs.Stats] that are read; times in milliseconds. *)
Record Stats := {
  kind : file_kind;
  stats_size : nat;
  mode : nat;
  birthtime : Z;
  mtime : Z;
  atime : Z
}.

Definition stats_isDirectory (s : Stats) : bool := bool_decide (kind s = S_IFDIR).
Definition stats_isFile (s : Stats) : bool := bool_decide (kind s = S_IFREG).
Definition stats_isSymbolicLink (s : Stats) : bool :=
  bool_decide (kind s = S_IFLNK).

(** [FileType] of types.ts. *)
Inductive FileType := file | directory | symlink | unknown.

#[global] Instance FileType_eq_dec : EqDecision FileType.
Proof. solve_decision. Defined.

Record FileInfo := {
  name : string;
  path : string;
  type : FileType;
  size : nat;
  isDirectory : bool;
  isFile : bool;
  isSymlink : bool;
  permissions : string;
  createdAt : Z;
  modifiedAt : Z;
  accessedAt : Z;
  extension : option string;
  mimeType : option string
}.

Record GetFileInfoArgs := {
  info_path : string;
  followSymlinks : option bool
}.

Definition GetFileInfoSchema (args : GetFileInfoArgs) : throws (string * bool) :=
  if String.eqb (info_path args) "" then throw (ZodError "Path is required")
  else ret (info_path args, default true (followSymlinks args)).

Section Info.
(** [fs.stat] and [fs.lstat]. *)
Variable stat : string -> throws Stats.
Variable lstat : string -> throws Stats.
(** [path.basename] and [path.extname]. *)
Variable basename : string -> string.
Variable extname : string -> string.
(** [mime.lookup(extension) || undefined], nothing when the import of
    [mime-types] fails. *)
Variable getMimeType : string -> option string.
(** [Number#toString(8)]. *)
Variable octal : nat -> string.

Definition getFileInfo (args : GetFileInfoArgs) : FileOperationResult FileInfo :=
  let run :=
    bind (GetFileInfoSchema args) (fun '(path, followSymlinks) =>
    bind (if followSymlinks then stat path else lstat path) (fun stats =>
    let extension := extname path in
    let mimeType :=
      if String.eqb extension "" then None else getMimeType extension in
    let fileInfo :=
      {| name := basename path;
         path := path;
         type := if stats_isDirectory stats then directory
                 else if stats_isFile stats then file else symlink;
         size := stats_size stats;
         isDirectory := stats_isDirectory stats;
         isFile := stats_isFile stats;
         isSymlink := stats_isSymbolicLink stats;
         permissions := octal (mode stats);
         createdAt := birthtime stats;
         modifiedAt := mtime stats;
         accessedAt := atime stats;
         extension := if String.eqb extension "" then None else Some extension;
         mimeType := mimeType |} in
    ret (mkResult true "File information retrieved successfully" (Some path)
           (Some fileInfo) None))) in
  match run with
  | inr r => r
  | inl e => FileOperations.failed "Failed to get file info: " (info_path args) e
  end.
End Info.

End GetFileInfo.

(** ** server.ts: getFilePreview *)
Module Preview.
Import Fs.

Inductive preview_type := preview_directory | preview_file | preview_unknown.

(** The object returned; the fields a branch leaves out are [None]. *)
Record FilePreview := {
  preview_path : string;
  type : preview_type;
  preview : text;
  canPreview : bool;
  size : option nat;
  mimeType : option string;
  encoding : option string;
  error : option string
}.

(** The truthiness of [result.data?.content]: the empty string is falsy,
    a Buffer is an object. *)
Definition content_truthy (c : FileOperations.content_value) : bool :=
  match c with
  | FileOperations.StringContent s => negb (bool_decide (s = []))
  | FileOperations.BufferContent _ => true
  end.

(** [typeof content === 'string' ? content : content.toString()]. *)
Definition content_string (c : FileOperations.content_value) : text :=
  match c with
  | FileOperations.StringContent s => s
  | FileOperations.BufferContent b => Utf8.decode b
  end.

Section Preview.
Variable stat : string -> throws GetFileInfo.Stats.
Variable lstat : string -> throws GetFileInfo.Stats.
Variable basename : string -> string.
Variable extname : string -> string.
Variable getMimeType : string -> option string.
Variable octal : nat -> string.
Variable encode_other : FileEncoding -> text -> bytes.
Variable decode_other : FileEncoding -> bytes -> text.
(** [guessMimeType] of server.ts. *)
Variable guessMimeType : string -> string.

Definition getFilePreview (path : string) (fs : gmap string node)
    : FilePreview :=
  let statsResult :=
    GetFileInfo.getFileInfo stat lstat basename extname getMimeType octal
      {| GetFileInfo.info_path := path;
         GetFileInfo.followSymlinks := Some true |} in
  match success statsResult, data statsResult with
  | true, Some stats =>
      if GetFileInfo.isDirectory stats then
        {| preview_path := path; type := preview_directory;
           preview := Js.of_string "Directory contents";
           canPreview := false; size := Some (GetFileInfo.size stats);
           mimeType := None; encoding := None; error := None |}
      else
        let result :=
          FileOperations.readFile encode_other decode_other
            {| FileOperations.read_path := path;
               FileOperations.read_encoding := Some utf8;
               FileOperations.read_offset := Some 0%Z;
               FileOperations.read_limit := Some 1024%Z |} fs in
        let '(preview, canPreview) :=
          match success result, data result with
          | true, Some d =>
              if content_truthy (FileOperations.content d)
              then (Js.slice (content_string (FileOperations.content d)) 0 500,
                    true)
              else (Js.of_string "Unable to read file content", false)
          | _, _ => (Js.of_string "Unable to read file content", false)
          end in
        {| preview_path := path; type := preview_file;
           preview := preview; canPreview := canPreview;
           size := Some (GetFileInfo.size stats);
           mimeType := Some (guessMimeType path);
           encoding := Some (if canPreview then "utf8" else "binary")%string;
           error := None |}
  | _, _ =>
      {| preview_path := path; type := preview_unknown;
         preview := Js.of_string "Unable to get file info";
         canPreview := false; size := None; mimeType := None;
         encoding := None; error := Some "File info not available"%string |}
  end.
End Preview.

End Preview.

(** ** file-operations.ts: copyFile and moveFile *)
Module CopyMove.
Import Fs.

Record CopyFileArgs := {
  copy_source : string;
  copy_destination : string;
  copy_overwrite : option bool;
  copy_preserveTimestamps : option bool
}.

Record MoveFileArgs := {
  move_source : string;
  move_destination : string;
  move_overwrite : option bool
}.

(** The [data] of both results. *)
Record TransferData := {
  source : string;
  destination : string;
  size : nat
}.

Definition CopyFileSchema (args : CopyFileArgs)
    : throws (string * string * bool * bool) :=
  if String.eqb (copy_source args) ""
  then throw (ZodError "Source path is required")
  else if String.eqb (copy_destination args) ""
  then throw (ZodError "Destination path is required")
  else ret (copy_source args, copy_destination args,
            default false (copy_overwrite args),
            default true (copy_preserveTimestamps args)).

Definition MoveFileSchema (args : MoveFileArgs)
    : throws (string * string * bool) :=
  if String.eqb (move_source args) ""
  then throw (ZodError "Source path is required")
  else if String.eqb (move_destination args) ""
  then throw (ZodError "Destination path is required")
  else ret (move_source args, move_destination args,
            default false (move_overwrite args)).

(** The error of a system call on two paths. *)
Definition two_path_error (code : errno) (syscall a b : string) : exception :=
  Error (errno_text code +:+ ", " +:+ syscall +:+ " '" +:+ a +:+ "' -> '"
           +:+ b +:+ "'").

(** [if (!overwrite) return ..] inside [try { await fs.access(destination) }]. *)
Definition exists_and_kept (destination : string) (overwrite : bool)
    (fs : gmap string node) : bool :=
  match access destination fs with
  | inr _ => negb overwrite
  | inl _ => false
  end.

Definition destination_exists {D} (destination : string)
    : FileOperationResult D :=
  mkResult false "Destination file exists and overwrite is disabled"
    (Some destination) None (Some "File exists"%string).

Section Transfers.
Variable dirname : string -> string.
(** [fs.rename] of a directory, which the operating system carries out on
    the whole subtree. *)
Variable rename_directory :
  string -> string -> gmap string node -> throws (gmap string node).

(** [fs.copyFile(src, dest)]: the content of a regular file is written to
    [dest], which is created or overwritten. *)
Definition Fs_copyFile (src dest : string) (fs : gmap string node)
    : throws (gmap string node) :=
  match fs !! src with
  | None => throw (two_path_error ENOENT "copyfile" src dest)
  | Some Directory => throw (two_path_error EISDIR "copyfile" src dest)
  | Some (File b) =>
      match fs !! dest with
      | Some Directory => throw (two_path_error EISDIR "copyfile" src dest)
      | Some (File _) => ret (<[dest := File b]> fs)
      | None =>
          match fs !! dirname dest with
          | Some Directory => ret (<[dest := File b]> fs)
          | Some (File _) => throw (two_path_error ENOTDIR "copyfile" src dest)
          | None => throw (two_path_error ENOENT "copyfile" src dest)
          end
      end
  end.

(** [fs.rename(src, dest)]: a regular file replaces what is at [dest],
    unless that is a directory; renaming a file to itself does nothing. *)
Definition Fs_rename (src dest : string) (fs : gmap string node)
    : throws (gmap string node) :=
  match fs !! src with
  | None => throw (two_path_error ENOENT "rename" src dest)
  | Some Directory => rename_directory src dest fs
  | Some (File b) =>
      match fs !! dest with
      | Some Directory => throw (two_path_error EISDIR "rename" src dest)
      | Some (File _) => ret (<[dest := File b]> (delete src fs))
      | None =>
          match fs !! dirname dest with
          | Some Directory => ret (<[dest := File b]> (delete src fs))
          | Some (File _) => throw (two_path_error ENOTDIR "rename" src dest)
          | None => throw (two_path_error ENOENT "rename" src dest)
          end
      end
  end.

(** The file system has no timestamps here: [fs.utimes] changes nothing,
    and of the lines that preserve them the [fs.stat(source)] remains. *)
Definition copyFile (args : CopyFileArgs) (fs : gmap string node)
    : FileOperationResult TransferData * gmap string node :=
  let failure e := FileOperations.failed "Failed to copy file: "
                     (copy_destination args) e in
  match CopyFileSchema args with
  | inl e => (failure e, fs)
  | inr (source, destination, overwrite, preserveTimestamps) =>
      match access source fs with
      | inl e => (failure e, fs)
      | inr _ =>
          if exists_and_kept destination overwrite fs
          then (destination_exists destination, fs)
          else
            match mkdir_p dirname (dirname destination) fs with
            | inl e => (failure e, fs)
            | inr fs1 =>
                match Fs_copyFile source destination fs1 with
                | inl e => (failure e, fs1)
                | inr fs2 =>
                    match (if preserveTimestamps
                           then bind (stat source fs2) (fun _ => ret tt)
                           else ret tt) with
                    | inl e => (failure e, fs2)
                    | inr _ =>
                        match stat destination fs2 with
                        | inl e => (failure e, fs2)
                        | inr stats =>
                            (mkResult true "File copied successfully"
                               (Some destination)
                               (Some {| source := source;
                                        destination := destination;
                                        size := Fs.size stats |})
                               None, fs2)
                        end
                    end
                end
            end
      end
  end.

Definition moveFile (args : MoveFileArgs) (fs : gmap string node)
    : FileOperationResult TransferData * gmap string node :=
  let failure e := FileOperations.failed "Failed to move file: "
                     (move_destination args) e in
  match MoveFileSchema args with
  | inl e => (failure e, fs)
  | inr (source, destination, overwrite) =>
      match access source fs with
      | inl e => (failure e, fs)
      | inr _ =>
          if exists_and_kept destination overwrite fs
          then (destination_exists destination, fs)
          else
            match mkdir_p dirname (dirname destination) fs with
            | inl e => (failure e, fs)
            | inr fs1 =>
                match Fs_rename source destination fs1 with
                | inl e => (failure e, fs1)
                | inr fs2 =>
                    match stat destination fs2 with
                    | inl e => (failure e, fs2)
                    | inr stats =>
                        (mkResult true "File moved successfully"
                           (Some destination)
                           (Some {| source := source;
                                    destination := destination;
                                    size := Fs.size stats |})
                           None, fs2)
                    end
                end
            end
      end
  end.
End Transfers.

End CopyMove.

(** ** directory-operations.ts *)
Module DirectoryOperations.
Import Fs.
Local Open Scope Z_scope.

(** *** getDirectorySize *)

(** A directory as the walk sees it: what [readdir] with file types
    lists; for an entry that is a directory, what [readdir] lists in it
    ([None] when it throws), for any other entry the size [stat] reports
    ([None] when it throws). *)
Inductive size_entry :=
  | Subdirectory (name : string) (entries : option (list size_entry))
  | Other (name : string) (stat_size : option nat).

(** The object [{ totalSize, fileCount, dirCount }]. *)
Record size_totals := {
  totalSize : nat;
  fileCount : nat;
  dirCount : nat
}.

Record SizeData := {
  reported_totalSize : nat;
  reported_fileCount : nat;
  reported_dirCount : nat;
  humanReadable : string
}.

(** One iteration of the loop over the entries, on the object [stats]. *)
Fixpoint visit (entry : size_entry) (stats : size_totals) : size_totals :=
  match entry with
  | Subdirectory _ entries =>
      let stats := {| totalSize := totalSize stats;
                      fileCount := fileCount stats;
                      dirCount := S (dirCount stats) |} in
      match entries with
      | None => stats
      | Some es => foldl (fun stats e => visit e stats) stats es
      end
  | Other _ None => stats
  | Other _ (Some n) =>
      {| totalSize := (totalSize stats + n)%nat;
         fileCount := S (fileCount stats);
         dirCount := dirCount stats |}
  end.

Definition calculateDirectorySize (entries : option (list size_entry))
    (stats : size_totals) : size_totals :=
  match entries with
  | None => stats
  | Some es => foldl (fun stats e => visit e stats) stats es
  end.

Section Size.
(** [formatBytes] of a size other than zero. *)
Variable format_positive : nat -> string.

Definition formatBytes (bytes : nat) : string :=
  if (bytes =? 0)%nat then "0 Bytes" else format_positive bytes.

(** The result, and the object that was passed to the walk as it is when
    the walk is over. *)
Definition getDirectorySize (path : string)
    (entries : option (list size_entry))
    : FileOperationResult SizeData * size_totals :=
  let totalSize := 0%nat in
  let fileCount := 0%nat in
  let dirCount := 0%nat in
  let walked :=
    calculateDirectorySize entries
      {| totalSize := totalSize; fileCount := fileCount;
         dirCount := dirCount |} in
  (mkResult true "Directory size calculated successfully" (Some path)
     (Some {| reported_totalSize := totalSize;
              reported_fileCount := fileCount;
              reported_dirCount := dirCount;
              humanReadable := formatBytes totalSize |})
     None,
   walked).
End Size.

(** *** listDirectory *)

(** An entry of a directory: its name, the [data] of a successful
    getFileInfo of its full path (following links), and what [readdir]
    lists at that path ([None] when it throws). *)
Inductive dirent :=
  | Dirent (name : string) (info : option GetFileInfo.FileInfo)
      (children : option (list dirent)).

Inductive depth_limit := Finite (m : Z) | Infinity.

Record ListDirectoryArgs := {
  list_path : string;
  list_recursive : option bool;
  list_includeHidden : option bool;
  list_maxDepth : option Z;
  list_fileTypes : option (list GetFileInfo.FileType)
}.

Record ListData := {
  items : list GetFileInfo.FileInfo;
  count : nat;
  listed_recursive : bool;
  listed_includeHidden : bool
}.

Record traverse_options := {
  recursive : bool;
  includeHidden : bool;
  maxDepth : depth_limit;
  fileTypes : option (list GetFileInfo.FileType)
}.

Definition ListDirectorySchema (args : ListDirectoryArgs)
    : throws (string * bool * bool * option Z
              * option (list GetFileInfo.FileType)) :=
  if String.eqb (list_path args) "" then throw (ZodError "Path is required")
  else if negb (FileOperations.at_least 1 (list_maxDepth args))
  then throw (ZodError "Number must be greater than or equal to 1")
  else if bool_decide (GetFileInfo.unknown ∈ default [] (list_fileTypes args))
  then throw (ZodError "Invalid enum value")
  else ret (list_path args, default false (list_recursive args),
            default false (list_includeHidden args), list_maxDepth args,
            list_fileTypes args).

(** [currentDepth >= maxDepth] and [currentDepth < maxDepth - 1]. *)
Definition reached (currentDepth : Z) (limit : depth_limit) : bool :=
  match limit with Finite m => m <=? currentDepth | Infinity => false end.
Definition before_last (currentDepth : Z) (limit : depth_limit) : bool :=
  match limit with Finite m => currentDepth <? m - 1 | Infinity => true end.

(** [!options.fileTypes || options.fileTypes.includes(type)]. *)
Definition type_listed (types : option (list GetFileInfo.FileType))
    (t : GetFileInfo.FileType) : bool :=
  match types with None => true | Some ts => bool_decide (t ∈ ts) end.

(** One iteration of the loop of traverseDirectory at [currentDepth],
    with the call for a subdirectory at [currentDepth + 1] in it. *)
Fixpoint traverseEntry (options : traverse_options) (currentDepth : Z)
    (entry : dirent) (items : list GetFileInfo.FileInfo)
    : list GetFileInfo.FileInfo :=
  match entry with
  | Dirent name info children =>
      if negb (includeHidden options) && String.prefix "." name then items
      else
        match info with
        | None => items
        | Some fileInfo =>
            let items :=
              if type_listed (fileTypes options) (GetFileInfo.type fileInfo)
              then items ++ [fileInfo] else items in
            if recursive options && GetFileInfo.isDirectory fileInfo
               && before_last currentDepth (maxDepth options)
            then
              if reached (currentDepth + 1) (maxDepth options) then items
              else
                match children with
                | None => items
                | Some es =>
                    foldl (fun items e =>
                             traverseEntry options (currentDepth + 1) e items)
                      items es
                end
            else items
        end
  end.

Definition traverseDirectory (options : traverse_options) (currentDepth : Z)
    (entries : option (list dirent)) (items : list GetFileInfo.FileInfo)
    : list GetFileInfo.FileInfo :=
  if reached currentDepth (maxDepth options) then items
  else
    match entries with
    | None => items
    | Some es =>
        foldl (fun items e => traverseEntry options currentDepth e items)
          items es
    end.

(** [root] is what is at the path: the exception of [fs.access], or what
    [readdir] lists there. *)
Definition listDirectory (args : ListDirectoryArgs)
    (root : throws (option (list dirent))) : FileOperationResult ListData :=
  let run :=
    bind (ListDirectorySchema args)
      (fun '(path, recursive, includeHidden, maxDepth, fileTypes) =>
    bind root (fun entries =>
    let limit :=
      match maxDepth with
      | Some m => if m =? 0 then (if recursive then Infinity else Finite 1)
                  else Finite m
      | None => if recursive then Infinity else Finite 1
      end in
    let items :=
      traverseDirectory
        {| recursive := recursive; includeHidden := includeHidden;
           maxDepth := limit; fileTypes := fileTypes |} 0 entries [] in
    ret (mkResult true
           ("Directory listed successfully (" +:+ pretty (length items)
              +:+ " items)")
           (Some path)
           (Some {| items := items; count := length items;
                    listed_recursive := recursive;
                    listed_includeHidden := includeHidden |})
           None))) in
  match run with
  | inr r => r
  | inl e =>
      FileOperations.failed "Failed to list directory: " (list_path args) e
  end.

End DirectoryOperations.

(** ** server.ts: getDirectoryStructure *)
Module Structure.
Import Fs.

Inductive child_type := child_directory | child_file.

Record child := {
  child_name : string;
  type : child_type;
  child_path : string;
  size : nat
}.

Record structure := {
  name : string;
  path : string;
  children : list child;
  totalFiles : nat;
  totalDirs : nat;
  totalSize : nat
}.

(** One iteration of the loop over the listed items. *)
Definition add_item (s : structure) (item : GetFileInfo.FileInfo)
    : structure :=
  if bool_decide (GetFileInfo.type item = GetFileInfo.directory) then
    {| name := name s; path := path s;
       children := children s
                     ++ [{| child_name := GetFileInfo.name item;
                            type := child_directory;
                            child_path := GetFileInfo.path item;
                            size := GetFileInfo.size item |}];
       totalFiles := totalFiles s;
       totalDirs := S (totalDirs s);
       totalSize := totalSize s |}
  else
    {| name := name s; path := path s;
       children := children s
                     ++ [{| child_name := GetFileInfo.name item;
                            type := child_file;
                            child_path := GetFileInfo.path item;
                            size := GetFileInfo.size item |}];
       totalFiles := S (totalFiles s);
       totalDirs := totalDirs s;
       totalSize := totalSize s + GetFileInfo.size item |}.

Section Structure.
(** [path.split('/').pop()]. *)
Variable last_segment : string -> string.

Definition getDirectoryStructure (p : string)
    (root : throws (option (list DirectoryOperations.dirent))) : structure :=
  let result :=
    DirectoryOperations.listDirectory
      {| DirectoryOperations.list_path := p;
         DirectoryOperations.list_recursive := Some false;
         DirectoryOperations.list_includeHidden := Some false;
         DirectoryOperations.list_maxDepth := None;
         DirectoryOperations.list_fileTypes := None |} root in
  let contents :=
    if success result
    then match data result with
         | Some d => DirectoryOperations.items d
         | None => []
         end
    else [] in
  let empty :=
    {| name := if String.eqb (last_segment p) "" then p else last_segment p;
       path := p; children := [];
       totalFiles := 0; totalDirs := 0; totalSize := 0 |} in
  foldl add_item empty contents.
End Structure.

End Structure.

(** ** The totals of a directory tree and the direct entries of a listing *)
Module TreeSpec.
Import DirectoryOperations.

(** The files that can be stat'ed, their sizes, and the directories, in
    what can be read of a tree. *)
Fixpoint files_in (e : size_entry) : nat :=
  match e with
  | Other _ (Some _) => 1
  | Other _ None => 0
  | Subdirectory _ None => 0
  | Subdirectory _ (Some es) => foldr (fun e n => files_in e + n) 0 es
  end.

Fixpoint bytes_in (e : size_entry) : nat :=
  match e with
  | Other _ (Some n) => n
  | Other _ None => 0
  | Subdirectory _ None => 0
  | Subdirectory _ (Some es) => foldr (fun e n => bytes_in e + n) 0 es
  end.

Fixpoint dirs_in (e : size_entry) : nat :=
  match e with
  | Other _ _ => 0
  | Subdirectory _ None => 1
  | Subdirectory _ (Some es) => S (foldr (fun e n => dirs_in e + n) 0 es)
  end.

Definition total (f : size_entry -> nat) (entries : option (list size_entry))
    : nat :=
  match entries with
  | None => 0
  | Some es => foldr (fun e n => f e + n) 0 es
  end.

(** What a listing without recursion shows of one entry. *)
Definition direct_item (includeHidden : bool)
    (fileTypes : option (list GetFileInfo.FileType)) (e : dirent)
    : list GetFileInfo.FileInfo :=
  match e with
  | Dirent name info _ =>
      if negb includeHidden && String.prefix "." name then []
      else match info with
           | Some fileInfo =>
               if type_listed fileTypes (GetFileInfo.type fileInfo)
               then [fileInfo] else []
           | None => []
           end
  end.

End TreeSpec.

(** ** server.ts: the TTL cache and the resource handlers *)
Module Server.
Import Fs.
Local Open Scope Z_scope.

Definition DEFAULT_CACHE_TTL : Z := 5 * 60 * 1000.
Definition FILE_WATCH_CACHE_TTL : Z := 30 * 1000.

(** What the operations behind the resources read: the files, and the
    watcher registry of AdvancedOperations. *)
Record world := {
  files : gmap string node;
  watch_registry : AdvancedOperations.registry
}.

(** The resources whose fresh value is computed by an operation. *)
Inductive computed_kind :=
  | metadata | directory | search_cache | directory_structure
  | content_preview.

(** The double quote of JSON. *)
Definition quote : string := String (Ascii.ascii_of_nat 34) EmptyString.

Section Resources.
(** Results of getFileInfo, listDirectory, searchInFiles,
    getDirectoryStructure and getFilePreview, as values to serialize. *)
Variable V : Type.
Variable fresh : computed_kind -> string -> world -> V.
(** [decodeURIComponent], which throws on a malformed escape, and
    [JSON.stringify] of a string. *)
Variable decodeURIComponent : string -> throws string.
Variable JSON_stringify : string -> string.

(** The fields of a resource's data besides [cached] and [timestamp]. *)
Inductive resource_body :=
  | Computed (kind : computed_kind) (arg : string) (value : V)
  | WatchStatus (p : string) (isWatching : bool)
      (lastEvents : list AdvancedOperations.FileWatchEvent)
  | RecentFiles (type : string) (recent : list string) (count : nat).

(** The object built on a miss, kept in the cache and serialized, with
    [JSON.stringify(data, null, 2)], as the text of the response. *)
Record resource_data := {
  body : resource_body;
  cached : bool;
  data_timestamp : Z
}.

Record cache_entry := {
  data : resource_data;
  timestamp : Z;
  ttl : Z
}.

(** [`${type}:${JSON.stringify(params)}`], [params] having one field. *)
Definition getCacheKey (type param arg : string) : string :=
  type +:+ ":{" +:+ quote +:+ param +:+ quote +:+ ":"
    +:+ JSON_stringify arg +:+ "}".

Definition getCachedData (key : string) (now : Z)
    (cache : gmap string cache_entry)
    : option resource_data * gmap string cache_entry :=
  match cache !! key with
  | None => (None, cache)
  | Some entry =>
      if now - timestamp entry >? ttl entry then (None, delete key cache)
      else (Some (data entry), cache)
  end.

Definition setCachedData (key : string) (d : resource_data) (t now : Z)
    (cache : gmap string cache_entry) : gmap string cache_entry :=
  <[key := {| data := d; timestamp := now; ttl := t |}]> cache.

(** [data.cached = true] on the object that the cache entry holds. *)
Definition mark_cached (key : string) (cache : gmap string cache_entry)
    : gmap string cache_entry :=
  alter (fun entry =>
           {| data := {| body := body (data entry); cached := true;
                         data_timestamp := data_timestamp (data entry) |};
              timestamp := timestamp entry; ttl := ttl entry |})
    key cache.

(** What one of the seven blocks of the handler is made of. *)
Record request := {
  type : string;
  param : string;
  arg : string;
  request_ttl : Z;
  compute : world -> resource_body
}.

(** [uri.replace(prefix, "")], after [uri.startsWith(prefix)]. *)
Definition strip (prefix uri : string) : option string :=
  if String.prefix prefix uri
  then Some (String.substring (String.length prefix)
               (String.length uri - String.length prefix) uri)
  else None.

Definition computed (kind : computed_kind) (type param : string)
    (rest : string) : throws request :=
  bind (decodeURIComponent rest) (fun a =>
  ret {| type := type; param := param; arg := a;
         request_ttl := DEFAULT_CACHE_TTL;
         compute := fun w => Computed kind a (fresh kind a w) |}).

(** The chain of [if (uri.startsWith(..))]; [None] for an unknown URI. *)
Definition route (uri : string) : option (throws request) :=
  match strip "file://metadata/" uri with
  | Some rest => Some (computed metadata "metadata" "path" rest)
  | None =>
  match strip "file://directory/" uri with
  | Some rest => Some (computed directory "directory" "path" rest)
  | None =>
  match strip "file://search/cache/" uri with
  | Some rest => Some (computed search_cache "search_cache" "query" rest)
  | None =>
  match strip "file://watch/status/" uri with
  | Some rest =>
      Some (bind (decodeURIComponent rest) (fun p =>
            ret {| type := "watch_status"; param := "path"; arg := p;
                   request_ttl := FILE_WATCH_CACHE_TTL;
                   compute := fun _ => WatchStatus p false [] |}))
  | None =>
  match strip "file://recent/" uri with
  | Some rest =>
      Some (ret {| type := "recent_files"; param := "type"; arg := rest;
                   request_ttl := DEFAULT_CACHE_TTL;
                   compute := fun _ => RecentFiles rest [] 0 |})
  | None =>
  match strip "file://structure/" uri with
  | Some rest =>
      Some (computed directory_structure "directory_structure" "path" rest)
  | None =>
  match strip "file://content/preview/" uri with
  | Some rest =>
      Some (computed content_preview "content_preview" "path" rest)
  | None => None
  end end end end end end end.

(** The body shared by the seven blocks: look the key up at time [now];
    on a miss compute, stamp and store at time [later]; on a hit flag
    the cached object. *)
Definition serve (r : request) (now later : Z) (w : world)
    (cache : gmap string cache_entry)
    : resource_data * gmap string cache_entry :=
  let cacheKey := getCacheKey (type r) (param r) (arg r) in
  match getCachedData cacheKey now cache with
  | (None, cache') =>
      let d := {| body := compute r w; cached := false;
                  data_timestamp := later |} in
      (d, setCachedData cacheKey d (request_ttl r) later cache')
  | (Some d, cache') =>
      ({| body := body d; cached := true;
          data_timestamp := data_timestamp d |},
       mark_cached cacheKey cache')
  end.

(** The handler of ReadResourceRequest. *)
Definition readResource (uri : string) (now later : Z) (w : world)
    (cache : gmap string cache_entry)
    : throws resource_data * gmap string cache_entry :=
  let failure reason :=
    throw (Error ("Failed to read resource " +:+ uri +:+ ": " +:+ reason)) in
  match route uri with
  | None => (failure ("Unknown resource: " +:+ uri), cache)
  | Some (inl e) => (failure (exception_message e), cache)
  | Some (inr r) =>
      let '(d, cache') := serve r now later w cache in (ret d, cache')
  end.
End Resources.

End Server.

(** ** Concrete inputs for the examples *)
Module Examples.
Import Fs.
Local Open Scope Z_scope.

(** ASCII lower-casing, enough for the examples. *)
Definition ascii_lower (s : text) : text :=
  (fun c => if (65 <=? c) && (c <=? 90) then c + 32 else c) <$> s.

(** Two files: ["a\nb"] and the same with the line ["x"] put in front. *)
Definition two_files : gmap string node :=
  {[ "/1"%string := File (Utf8.encode (Js.of_string "a" ++ Js.LF :: Js.of_string "b"));
     "/2"%string := File (Utf8.encode (Js.of_string "x" ++ Js.LF :: Js.of_string "a"
                                         ++ Js.LF :: Js.of_string "b")) ]}.

(** A regular expression for one literal code unit [c]:
    [exec] finds its first occurrence at or after [lastIndex]. *)
Fixpoint index_from (c : Z) (line : text) (pos lastIndex : nat) : option nat :=
  match line with
  | [] => None
  | x :: r =>
      if (lastIndex <=? pos)%nat && (x =? c) then Some pos
      else index_from c r (S pos) lastIndex
  end.

Definition exec_unit (c : Z) (line : text) (lastIndex : nat)
    : option (nat * text) :=
  (fun index => (index, [c])) <$> index_from c line 0 lastIndex.

(** A file of three lines: ["banana"], ["kiwi"], ["abc"]. *)
Definition fruit : gmap string node :=
  {[ "/t/fruit.txt"%string :=
       File (Utf8.encode (Js.of_string "banana" ++ Js.LF :: Js.of_string "kiwi"
                            ++ Js.LF :: Js.of_string "abc")) ]}.

(** What the search for the letter [a] in it finds, with no context. *)
Definition fruit_result : AdvancedOperations.SearchResult :=
  {| AdvancedOperations.result_path := "/t/fruit.txt";
     AdvancedOperations.matches :=
       [{| AdvancedOperations.match_line := 1; AdvancedOperations.column := 2;
           AdvancedOperations.matched := [97];
           AdvancedOperations.context := Js.of_string "banana" |};
        {| AdvancedOperations.match_line := 1; AdvancedOperations.column := 4;
           AdvancedOperations.matched := [97];
           AdvancedOperations.context := Js.of_string "banana" |};
        {| AdvancedOperations.match_line := 1; AdvancedOperations.column := 6;
           AdvancedOperations.matched := [97];
           AdvancedOperations.context := Js.of_string "banana" |};
        {| AdvancedOperations.match_line := 3; AdvancedOperations.column := 1;
           AdvancedOperations.matched := [97];
           AdvancedOperations.context := Js.of_string "abc" |}];
     AdvancedOperations.fileInfo :=
       File (Utf8.encode (Js.of_string "banana" ++ Js.LF :: Js.of_string "kiwi"
                            ++ Js.LF :: Js.of_string "abc")) |}.

(** Watching the directory [/w], chokidar closing without error. *)
Definition all_close : nat -> option string := fun _ => None.
Definition watched_files : gmap string node := {[ "/w"%string := Directory ]}.
Definition watch_w : AdvancedOperations.WatchFileArgs :=
  {| AdvancedOperations.watch_path := "/w";
     AdvancedOperations.watch_recursive := None;
     AdvancedOperations.watch_ignoreInitial := None;
     AdvancedOperations.watch_ignored := None |}.
Definition changed (n : nat) : AdvancedOperations.FileWatchEvent :=
  {| AdvancedOperations.event := AdvancedOperations.change;
     AdvancedOperations.event_path := "/w/" +:+ pretty n;
     AdvancedOperations.stats := None |}.

(** A world in which [/w] is being watched. *)
Definition watching_w : Server.world :=
  {| Server.files := watched_files;
     Server.watch_registry :=
       (AdvancedOperations.watchFile all_close watch_w watched_files
          AdvancedOperations.no_watchers).2 |}.

(** The size of a file, standing for the metadata of the example. *)
Definition size_of (k : Server.computed_kind) (p : string) (w : Server.world)
    : nat :=
  match Server.files w !! p with Some n => Fs.size n | None => 0%nat end.

Definition json_string (s : string) : string :=
  Server.quote +:+ s +:+ Server.quote.

End Examples.

(** ** Concrete inputs for the further examples *)
Module MoreExamples.
Import Fs.
Local Open Scope Z_scope.

(** Every path has the root as its parent. *)
Definition flat (p : string) : string := "/".
(** A codec that leaves the code units as bytes. *)
Definition raw (enc : FileEncoding) (b : bytes) : bytes := b.

Definition root_only : gmap string node := {[ "/"%string := Directory ]}.

(** A directory with a file in it, and a file beside it. *)
Definition small_tree : gmap string node :=
  {[ "/d"%string := Directory; "/d/f"%string := File [1];
     "/e"%string := File [2] ]}.

Definition five_bytes : gmap string node :=
  {[ "/a.bin"%string := File [200; 201; 202; 203; 204] ]}.

(** The same directory under two spellings of its path. *)
Definition two_spellings : gmap string node :=
  {[ "/w"%string := Directory; "/./w"%string := Directory ]}.
Definition watch_dot : AdvancedOperations.WatchFileArgs :=
  {| AdvancedOperations.watch_path := "/./w";
     AdvancedOperations.watch_recursive := None;
     AdvancedOperations.watch_ignoreInitial := None;
     AdvancedOperations.watch_ignored := None |}.
(** A chokidar whose watchers never close. *)
Definition never_close (w : nat) : option string := Some "EBUSY"%string.

End MoreExamples.
(** ** Codec lemmas *)
Section Utf8_facts.
Import Utf8.
Local Open Scope Z_scope.

Ltac zcases :=
  repeat (cbn [app decode_code_points andb];
    match goal with
    | |- (if ?c then _ else _) = _ =>
        match c with
        | context [?a <? ?b] => destruct (Z.ltb_spec a b); try lia
        | context [?a <=? ?b] => destruct (Z.leb_spec a b); try lia
        | context [?a =? ?b] => destruct (Z.eqb_spec a b); try lia
        end
    end).

Lemma decode_encode_code_point cp rest :
  scalar cp ->
  decode_code_points (encode_code_point cp ++ rest) = cp :: decode_code_points rest.
Proof.
  intros Hs. unfold scalar in Hs. unfold encode_code_point.
  pose proof (Z.div_mod cp 64 ltac:(lia)) as E0.
  pose proof (Z.mod_pos_bound cp 64 ltac:(lia)) as B0.
  pose proof (Z.div_mod (cp / 64) 64 ltac:(lia)) as E1.
  pose proof (Z.mod_pos_bound (cp / 64) 64 ltac:(lia)) as B1.
  pose proof (Z.div_mod (cp / 4096) 64 ltac:(lia)) as E2.
  pose proof (Z.mod_pos_bound (cp / 4096) 64 ltac:(lia)) as B2.
  assert (D1 : cp / 64 / 64 = cp / 4096) by (rewrite Z.div_div by lia; reflexivity).
  assert (D2 : cp / 4096 / 64 = cp / 262144) by (rewrite Z.div_div by lia; reflexivity).
  rewrite D1 in E1. rewrite D2 in E2. clear D1 D2.
  generalize dependent (cp mod 64). generalize dependent ((cp / 64) mod 64).
  generalize dependent ((cp / 4096) mod 64). generalize dependent (cp / 64).
  generalize dependent (cp / 4096). generalize dependent (cp / 262144).
  intros q3 q2 q1 r2 E2 B2 r1 E1 B1 r0 E0 B0.
  destruct (Z.ltb_spec cp 0x80).
  { cbn [app decode_code_points]. zcases. reflexivity. }
  destruct (Z.ltb_spec cp 0x800).
  { assert (Hcp : cp = 64 * q1 + r0) by lia.
    assert (2 <= q1 < 32) by lia.
    clear E0 E1 E2. subst cp. clear - B0 H1. cbn [app decode_code_points]. unfold is_continuation.
    zcases. f_equal. lia. }
  destruct (Z.ltb_spec cp 0x10000).
  { assert (Hcp : cp = 4096 * q2 + 64 * r1 + r0) by lia.
    assert (0 <= q2 < 16) by lia.
    assert (q2 = 0 -> 32 <= r1) by lia.
    assert (q2 = 13 -> r1 < 32) by lia.
    clear E0 E1 E2. subst cp. clear - B0 B1 H2 H3 H4. cbn [app decode_code_points].
    unfold second_of_three, is_continuation.
    zcases; f_equal; lia. }
  assert (Hcp : cp = 262144 * q3 + 4096 * r2 + 64 * r1 + r0) by lia.
  assert (0 <= q3 < 5) by lia.
  assert (q3 = 0 -> 16 <= r2) by lia.
  assert (q3 = 4 -> r2 < 16) by lia.
  clear E0 E1 E2. subst cp. clear - B0 B1 B2 H2 H3 H4. cbn [app decode_code_points].
  unfold second_of_four, is_continuation.
  zcases; f_equal; lia.
Qed.

Lemma decode_encode_code_points cps :
  Forall scalar cps ->
  decode_code_points (flat_map encode_code_point cps) = cps.
Proof.
  induction 1 as [|cp cps Hcp _ IH]; [reflexivity|].
  simpl. rewrite decode_encode_code_point by assumption. by rewrite IH.
Qed.

Lemma well_formed_code_points_aux n : forall s,
  (length s <= n)%nat -> well_formed s = true ->
  Forall scalar (code_points s) /\ flat_map utf16_units (code_points s) = s.
Proof.
  induction n as [|n IH]; intros s Hlen Hwf.
  { destruct s; [split; [constructor|reflexivity] | simpl in Hlen; lia]. }
  destruct s as [|c r]; [split; [constructor|reflexivity]|].
  simpl in Hwf |- *. destruct (is_high_surrogate c) eqn:Hh.
  - destruct r as [|d r']; [discriminate|].
    apply andb_true_iff in Hwf as [Hl Hwf]. rewrite Hl.
    destruct (IH r') as [F E]; [simpl in Hlen; lia | assumption |].
    unfold is_high_surrogate in Hh. unfold is_low_surrogate in Hl.
    apply andb_true_iff in Hh as [Hh1 Hh2]. apply andb_true_iff in Hl as [Hl1 Hl2].
    apply Z.leb_le in Hh1, Hh2, Hl1, Hl2.
    split.
    + constructor; [right; lia | assumption].
    + simpl. rewrite E. unfold utf16_units.
      destruct (Z.ltb_spec (65536 + (c - 55296) * 1024 + (d - 56320)) 65536); [lia|].
      simpl. f_equal; [|f_equal].
      * replace (65536 + (c - 55296) * 1024 + (d - 56320) - 65536)
          with ((d - 56320) + (c - 55296) * 1024) by lia.
        rewrite Z.div_add by lia. rewrite Z.div_small by lia. lia.
      * replace (65536 + (c - 55296) * 1024 + (d - 56320) - 65536)
          with ((d - 56320) + (c - 55296) * 1024) by lia.
        rewrite Z.mod_add by lia. rewrite Z.mod_small by lia. lia.
  - rewrite !andb_true_iff in Hwf. destruct Hwf as [[[Hl H0] H1] Hwf].
    apply negb_true_iff in Hl. rewrite Hl.
    destruct (IH r) as [F E]; [simpl in Hlen; lia | assumption |].
    apply Z.leb_le in H0, H1.
    unfold is_high_surrogate in Hh. unfold is_low_surrogate in Hl.
    split.
    + constructor; [|assumption]. unfold scalar.
      destruct (Z.leb_spec 0xD800 c); destruct (Z.leb_spec c 0xDBFF);
        destruct (Z.leb_spec 0xDC00 c); destruct (Z.leb_spec c 0xDFFF);
        simpl in *; try discriminate; lia.
    + simpl. rewrite E. unfold utf16_units.
      destruct (Z.ltb_spec c 65536); [reflexivity | lia].
Qed.

Lemma decode_encode s : well_formed s = true -> decode (encode s) = s.
Proof.
  intros Hwf. unfold decode, encode.
  destruct (well_formed_code_points_aux (length s) s) as [F E]; [lia | assumption |].
  by rewrite decode_encode_code_points.
Qed.

(** A lone surrogate is written as U+FFFD and does not come back. *)
Example lone_surrogate_is_replaced :
  encode [0xD800] = [0xEF; 0xBF; 0xBD] /\ decode (encode [0xD800]) = [0xFFFD].
Proof. split; reflexivity. Qed.

(** The four lengths of an encoded code point: U+0068, U+00E9, U+20AC and
    U+1F600 (a surrogate pair). *)
Example encode_lengths :
  encode [0x68; 0xE9; 0x20AC; 0xD83D; 0xDE00]
  = [0x68; 0xC3; 0xA9; 0xE2; 0x82; 0xAC; 0xF0; 0x9F; 0x98; 0x80].
Proof. reflexivity. Qed.

End Utf8_facts.

(** ** Facts about file-operations.ts *)
Section FileOperations_facts.
Import Fs FileOperations.
Local Open Scope Z_scope.

Variable dirname : string -> string.
Variable encode_other : FileEncoding -> text -> bytes.
Variable decode_other : FileEncoding -> bytes -> text.

Lemma eqb_nonempty (p : string) : p <> "" -> String.eqb p "" = false.
Proof. intros Hp. by apply String.eqb_neq. Qed.

(** A successful plain write leaves the encoded content at the path. *)
Lemma writeFile_stores args fs :
  default false (write_append args) = false ->
  success (writeFile dirname encode_other args fs).1 = true ->
  (writeFile dirname encode_other args fs).2 !! write_path args
  = Some (File (buffer_from encode_other
                  (default utf8 (write_encoding args)) (write_content args)))
  /\ write_path args <> "".
Proof.
  intros Happ. unfold writeFile, WriteFileSchema.
  destruct (String.eqb_spec (write_path args) "") as [|Hne]; [discriminate|].
  simpl. rewrite Happ.
  destruct (if default false (write_createDirs args) then _ else _)
    as [e|fs1]; [discriminate|].
  unfold Fs.writeFile.
  destruct (fs1 !! write_path args) as [[old|]|] eqn:E; simpl.
  - intros _. by rewrite lookup_insert_eq.
  - discriminate.
  - destruct (fs1 !! dirname (write_path args)) as [[?|]|]; simpl;
      try discriminate.
    intros _. by rewrite lookup_insert_eq.
Qed.

(** C6: a successful [writeFile(path, C)] under the default encoding, then
    [readFile(path)] under the default encoding, returns content [C], for
    every well-formed string [C]. *)
Theorem write_then_read_roundtrip
    (p : string) (C : text) (createDirs append : option bool)
    (fs : gmap string node) :
  let w := writeFile dirname encode_other
             {| write_path := p; write_content := C; write_encoding := None;
                write_createDirs := createDirs; write_append := append |} fs in
  let r := readFile encode_other decode_other
             {| read_path := p; read_encoding := None; read_offset := None;
                read_limit := None |} w.2 in
  Utf8.well_formed C = true ->
  default false append = false ->
  success w.1 = true ->
  success r = true /\ content <$> data r = Some (StringContent C).
Proof.
  intros w r Hwf Happ Hok.
  destruct (writeFile_stores
              {| write_path := p; write_content := C; write_encoding := None;
                 write_createDirs := createDirs; write_append := append |}
              fs Happ Hok) as [Hstored Hne]; simpl in *.
  fold w in Hstored. subst r. unfold readFile, ReadFileSchema. simpl.
  rewrite (eqb_nonempty p Hne). simpl.
  unfold access, Fs.readFile. rewrite Hstored. simpl.
  rewrite decode_encode by assumption. done.
Qed.


(** C10: a ranged read ([offset] or [limit] given) that succeeds returns
    the byte slice [start, end) of the file; the slice is decoded to a
    string only under utf8, and under every other encoding it is returned
    as the raw buffer, the requested encoding not being applied. *)
Theorem ranged_read_returns_raw_slice
    (args : ReadFileArgs) (fs : gmap string node) :
  defined (read_offset args) || defined (read_limit args) = true ->
  success (readFile encode_other decode_other args fs) = true ->
  exists buffer : bytes,
    fs !! read_path args = Some (File buffer) /\
    let start := or_zero (read_offset args) in
    let stop := match read_limit args with
                | Some l => start + l
                | None => Z.of_nat (length buffer)
                end in
    let slice := buffer_slice buffer start stop in
    content <$> data (readFile encode_other decode_other args fs)
    = Some (if decide (default utf8 (read_encoding args) = utf8)
            then StringContent (Utf8.decode slice)
            else BufferContent slice).
Proof.
  intros Hranged. unfold readFile, ReadFileSchema.
  destruct (String.eqb (read_path args) ""); [discriminate|].
  destruct (at_least 0 (read_offset args)) eqn:Hoff; [|discriminate].
  destruct (at_least 1 (read_limit args)) eqn:Hlim; [|discriminate].
  simpl. rewrite Hranged.
  unfold access, Fs.readFile.
  destruct (fs !! read_path args) as [[buffer|]|]; simpl; try discriminate.
  intros _. exists buffer. split; [reflexivity|].
  assert (Hstop : (if truthy (read_limit args)
                   then or_zero (read_offset args) + or_zero (read_limit args)
                   else Z.of_nat (length buffer))
                  = match read_limit args with
                    | Some l => or_zero (read_offset args) + l
                    | None => Z.of_nat (length buffer)
                    end).
  { destruct (read_limit args) as [l|]; simpl in *; [|reflexivity].
    apply Z.leb_le in Hlim. destruct (Z.eqb_spec l 0); [lia | reflexivity]. }
  rewrite Hstop.
  destruct (decide (default utf8 (read_encoding args) = utf8)) as [->|Hne];
    reflexivity.
Qed.


(** C5: [deleteFile] on an existing directory without [recursive] fails
    with the directory error and leaves the file system as it was; on a
    missing path it fails with the not-found error unless [force], and
    with [force] it reports success; nothing is deleted in either case. *)
Theorem deleteFile_guards
    (p : string) (recursive force : option bool) (fs : gmap string node) :
  p <> "" ->
  let run := deleteFile
               {| delete_path := p; delete_recursive := recursive;
                  delete_force := force |} fs in
  (fs !! p = Some Directory -> default false recursive = false ->
   run = (mkResult false "Cannot delete directory without recursive flag"
            (Some p) None (Some "Directory requires recursive deletion"), fs))
  /\ (fs !! p = None -> default false force = false ->
      run = (mkResult false "Path does not exist" (Some p) None
               (Some "Path not found"), fs))
  /\ (fs !! p = None -> default false force = true ->
      run = (mkResult true "Path does not exist (ignored due to force flag)"
               (Some p) None None, fs)).
Proof.
  intros Hp run. subst run. unfold deleteFile, DeleteFileSchema. simpl.
  rewrite (eqb_nonempty p Hp). unfold access, stat. simpl.
  repeat split; intros Hlook Hflag; rewrite Hlook; simpl; rewrite Hflag;
    reflexivity.
Qed.

End FileOperations_facts.

Section FileOperations_witnesses.
Import Fs FileOperations.
Local Open Scope Z_scope.

Lemma write_then_read_roundtrip_witness :
  let dir := fun _ : string => "/"%string in
  let other := fun (_ : FileEncoding) (b : bytes) => b in
  let C := [104; 233; 0x20AC; 0xD83D; 0xDE00; 10] in
  let w := writeFile dir other
             {| write_path := "/a.txt"; write_content := C;
                write_encoding := None; write_createDirs := None;
                write_append := None |} {[ "/"%string := Directory ]} in
  let r := readFile other other
             {| read_path := "/a.txt"; read_encoding := None;
                read_offset := None; read_limit := None |} w.2 in
  success r = true /\ content <$> data r = Some (StringContent C).
Proof.
  intros dir other C.
  apply (write_then_read_roundtrip dir other other "/a.txt" C None None);
    vm_compute; reflexivity.
Defined.

Lemma ranged_read_returns_raw_slice_witness :
  let other := fun (_ : FileEncoding) (b : bytes) => b in
  let args := {| read_path := "/a.bin"; read_encoding := Some latin1;
                 read_offset := Some 1; read_limit := Some 2 |} in
  let fs : gmap string node := {[ "/a.bin"%string := File [200; 201; 202; 203] ]} in
  content <$> data (readFile other other args fs)
  = Some (BufferContent [201; 202]).
Proof.
  intros other args fs.
  destruct (ranged_read_returns_raw_slice other other args fs) as [buffer [Hb Hc]].
  - reflexivity.
  - vm_compute. reflexivity.
  - assert (buffer = [200; 201; 202; 203]) as ->.
    { vm_compute in Hb. congruence. }
    exact Hc.
Defined.

Lemma deleteFile_guards_witness :
  let fs : gmap string node :=
    {[ "/d"%string := Fs.Directory; "/d/f"%string := Fs.File [1; 2] ]} in
  FileOperations.deleteFile {| delete_path := "/d"; delete_recursive := None;
                delete_force := Some true |} fs
  = (mkResult false "Cannot delete directory without recursive flag"
       (Some "/d"%string) None (Some "Directory requires recursive deletion"%string), fs)
  /\ FileOperations.deleteFile {| delete_path := "/x"; delete_recursive := Some true;
                   delete_force := None |} fs
     = (mkResult false "Path does not exist" (Some "/x"%string) None
          (Some "Path not found"%string), fs)
  /\ FileOperations.deleteFile {| delete_path := "/x"; delete_recursive := None;
                   delete_force := Some true |} fs
     = (mkResult true "Path does not exist (ignored due to force flag)"
          (Some "/x"%string) None None, fs).
Proof.
  intros fs. split; [|split].
  - apply (deleteFile_guards "/d" None (Some true) fs); [discriminate | | ];
      reflexivity.
  - apply (deleteFile_guards "/x" (Some true) None fs); [discriminate | | ];
      reflexivity.
  - apply (deleteFile_guards "/x" None (Some true) fs); [discriminate | | ];
      reflexivity.
Defined.

End FileOperations_witnesses.

(** ** Facts about compareFiles *)
Section Lines_facts.
Import Js.
Local Open Scope Z_scope.

Lemma split_lines_length s : (1 <= length (split_lines s))%nat.
Proof.
  induction s as [|c r IH]; simpl; [lia|].
  destruct (c =? LF); simpl; [lia|].
  destruct (split_lines r); simpl in *; lia.
Qed.

Lemma split_lines_no_LF s : LF ∉ s -> split_lines s = [s].
Proof.
  induction s as [|c r IH]; intros Hs; [reflexivity|].
  apply not_elem_of_cons in Hs as [Hc Hr]. simpl.
  destruct (Z.eqb_spec c LF); [congruence|]. by rewrite IH.
Qed.

Lemma split_lines_insert x s :
  LF ∉ x -> split_lines (x ++ LF :: s) = x :: split_lines s.
Proof.
  induction x as [|c r IH]; intros Hx; simpl.
  - reflexivity.
  - apply not_elem_of_cons in Hx as [Hc Hr].
    destruct (Z.eqb_spec c LF); [congruence|]. by rewrite IH.
Qed.

Lemma is_space_LF : is_space LF = true.
Proof. reflexivity. Qed.

Lemma replace_space_runs_no_LF s : forall in_run,
  LF ∉ replace_space_runs in_run s.
Proof.
  induction s as [|c r IH]; intros in_run; simpl; [apply not_elem_of_nil|].
  destruct (is_space c) eqn:Hc.
  - destruct in_run; [apply IH|].
    apply not_elem_of_cons. split; [discriminate | apply IH].
  - apply not_elem_of_cons. split; [|apply IH].
    intros <-. by rewrite is_space_LF in Hc.
Qed.

Lemma trim_start_elem c s : c ∈ trim_start s -> c ∈ s.
Proof.
  induction s as [|d r IH]; simpl; [done|].
  destruct (is_space d); [|done]. intros H. right. by apply IH.
Qed.

Lemma rev_elem (c : Z) (s : text) : c ∈ rev s <-> c ∈ s.
Proof. rewrite !list_elem_of_In. symmetry. apply in_rev. Qed.

Lemma trim_elem c s : c ∈ trim s -> c ∈ s.
Proof.
  unfold trim. rewrite rev_elem. intros H.
  apply trim_start_elem in H. apply (proj1 (rev_elem _ _)) in H.
  by apply trim_start_elem.
Qed.

End Lines_facts.

Section Compare_facts.
Import Fs AdvancedOperations CompareLoop CompareSpec.

Lemma compare_at_acc l1 l2 i acc :
  compare_at l1 l2 i acc = acc ++ compare_at l1 l2 i [].
Proof. unfold compare_at. repeat case_bool_decide; by rewrite ?app_nil_r. Qed.

Lemma compare_from_acc l1 l2 n : forall i acc,
  compare_from l1 l2 i n acc = acc ++ compare_from l1 l2 i n [].
Proof.
  induction n as [|n IH]; intros i acc; simpl; [by rewrite app_nil_r|].
  rewrite IH, (IH _ (compare_at l1 l2 i [])), (compare_at_acc _ _ _ acc).
  by rewrite app_assoc.
Qed.

(** The loop visits the indices in order and reports each on its own. *)
Lemma compare_from_bind l1 l2 n : forall i,
  compare_from l1 l2 i n [] = seq i n ≫= (fun j => compare_at l1 l2 j []).
Proof.
  induction n as [|n IH]; intros i; simpl; [reflexivity|].
  by rewrite compare_from_acc, IH.
Qed.

Lemma compare_at_equal l1 l2 i :
  Js.index_or_empty l1 i = Js.index_or_empty l2 i -> compare_at l1 l2 i [] = [].
Proof. intros E. unfold compare_at. by rewrite bool_decide_eq_false_2; [|tauto]. Qed.

Lemma compare_at_differ l1 l2 i :
  Js.index_or_empty l1 i <> Js.index_or_empty l2 i ->
  exists d, compare_at l1 l2 i [] = [d] /\ line d = i + 1.
Proof.
  intros E. unfold compare_at. rewrite bool_decide_eq_true_2 by done.
  repeat case_bool_decide; eexists; split; reflexivity.
Qed.

Lemma compare_at_added l1 l2 i b :
  length l1 <= i -> l2 !! i = Some b -> b <> [] ->
  compare_at l1 l2 i [] = [{| line := i + 1; type := added; content := b |}].
Proof.
  intros H1 H2 Hb. unfold compare_at, Js.index_or_empty.
  rewrite (proj2 (lookup_ge_None l1 i) H1), H2. simpl.
  rewrite bool_decide_eq_true_2 by congruence.
  by rewrite bool_decide_eq_true_2.
Qed.

Lemma compare_at_removed l1 l2 i a :
  length l2 <= i -> l1 !! i = Some a -> a <> [] ->
  compare_at l1 l2 i [] = [{| line := i + 1; type := removed; content := a |}].
Proof.
  intros H2 H1 Ha. unfold compare_at, Js.index_or_empty.
  rewrite (proj2 (lookup_ge_None l2 i) H2), H1. simpl.
  rewrite bool_decide_eq_true_2 by congruence.
  apply lookup_lt_Some in H1.
  rewrite bool_decide_eq_false_2 by lia.
  by rewrite bool_decide_eq_true_2.
Qed.

Lemma compare_at_modified l1 l2 i a b :
  l1 !! i = Some a -> l2 !! i = Some b -> a <> b ->
  compare_at l1 l2 i []
  = [{| line := i + 1; type := modified; content := modified_content a b |}].
Proof.
  intros H1 H2 Hab. unfold compare_at, Js.index_or_empty.
  rewrite H1, H2. simpl.
  rewrite bool_decide_eq_true_2 by congruence.
  apply lookup_lt_Some in H1. apply lookup_lt_Some in H2.
  by rewrite !bool_decide_eq_false_2 by lia.
Qed.

Lemma compare_lines_elem l1 l2 d :
  d ∈ compare_lines l1 l2 <->
  exists i, i < Nat.max (length l1) (length l2) /\ d ∈ compare_at l1 l2 i [].
Proof.
  unfold compare_lines. rewrite compare_from_bind, list_elem_of_bind.
  split; intros [i [H1 H2]]; exists i.
  - apply elem_of_seq in H2. split; [lia | done].
  - split; [done|]. apply elem_of_seq. lia.
Qed.

Lemma compare_bind_length l1 l2 (indices : list nat) :
  length (indices ≫= (fun j => compare_at l1 l2 j []))
  = length (mismatches l1 l2 indices).
Proof.
  unfold mismatches.
  induction indices as [|i rest IH]; [reflexivity|].
  rewrite bind_cons, length_app, IH, filter_cons.
  destruct (decide (Js.index_or_empty l1 i <> Js.index_or_empty l2 i)) as [E|E].
  - destruct (compare_at_differ l1 l2 i E) as [d [-> _]]. reflexivity.
  - rewrite compare_at_equal; [reflexivity|].
    destruct (decide (Js.index_or_empty l1 i = Js.index_or_empty l2 i)); tauto.
Qed.

Lemma compare_lines_length l1 l2 :
  length (compare_lines l1 l2)
  = length (mismatches l1 l2 (seq 0 (Nat.max (length l1) (length l2)))).
Proof. unfold compare_lines. by rewrite compare_from_bind, compare_bind_length. Qed.

Lemma compare_lines_same l : compare_lines l l = [].
Proof.
  unfold compare_lines. rewrite compare_from_bind.
  induction (seq 0 (Nat.max (length l) (length l))) as [|i rest IH];
    [reflexivity|].
  by rewrite bind_cons, compare_at_equal, IH.
Qed.

(** One line put in front: every index below [length l] compares a line
    with its predecessor, and the last index holds the last line alone. *)
Lemma compare_lines_shifted x l :
  last l <> Some [] -> l <> [] ->
  length (compare_lines l (x :: l))
  = length (mismatches l (x :: l) (seq 0 (length l))) + 1.
Proof.
  intros Hlast Hne. rewrite compare_lines_length. simpl length.
  replace (Nat.max (length l) (S (length l))) with (S (length l)) by lia.
  rewrite seq_S. unfold mismatches. rewrite filter_app, length_app.
  f_equal. simpl. rewrite filter_cons, filter_nil.
  destruct (decide _) as [E|E]; [reflexivity|].
  exfalso. apply E. unfold Js.index_or_empty.
  rewrite (proj2 (lookup_ge_None l (length l))) by lia. simpl.
  destruct l as [|a l'] using rev_ind; [done|].
  rewrite last_snoc in Hlast.
  replace (length (l' ++ [a])) with (S (length l'))
    by (rewrite length_app; simpl; lia).
  simpl. rewrite lookup_app_r by lia.
  replace (length l' - length l') with 0 by lia. simpl. congruence.
Qed.

(** Inside both files an iteration compares the lines themselves. *)
Lemma mismatches_in_range (l1 l2 : list text) (indices : list nat) :
  Forall (fun i => i < length l1 /\ i < length l2) indices ->
  mismatches l1 l2 indices = filter (fun i => l1 !! i <> l2 !! i) indices.
Proof.
  unfold mismatches. induction 1 as [|i rest [H1 H2] _ IH]; [reflexivity|].
  rewrite !filter_cons, IH.
  destruct (lookup_lt_is_Some_2 l1 i H1) as [a Ha].
  destruct (lookup_lt_is_Some_2 l2 i H2) as [b Hb].
  unfold Js.index_or_empty. rewrite Ha, Hb. simpl.
  destruct (decide (a <> b)) as [E|E];
    destruct (decide (Some a <> Some b)) as [E'|E']; try reflexivity.
  - exfalso. apply E'. congruence.
  - exfalso. apply E. intros ->. by apply E'.
Qed.

Variable toLowerCase : text -> text.

(** What compareFiles returns on two readable files. *)
Lemma compareFiles_readable f1 f2 iw ic (fs : gmap string node) b1 b2 :
  f1 <> "" -> f2 <> "" ->
  fs !! f1 = Some (File b1) -> fs !! f2 = Some (File b2) ->
  let lines1 := Js.split_lines (normalize toLowerCase (default false iw)
                                  (default false ic) (Utf8.decode b1)) in
  let lines2 := Js.split_lines (normalize toLowerCase (default false iw)
                                  (default false ic) (Utf8.decode b2)) in
  data (compareFiles toLowerCase
          {| file1 := f1; file2 := f2; ignoreWhitespace := iw;
             ignoreCase := ic |} fs)
  = Some {| identical := bool_decide (length (compare_lines lines1 lines2) = 0);
            differences := compare_lines lines1 lines2;
            totalDifferences := length (compare_lines lines1 lines2);
            compared1 := {| compared_path := f1; lines := length lines1;
                            size := length (Utf8.decode b1) |};
            compared2 := {| compared_path := f2; lines := length lines2;
                            size := length (Utf8.decode b2) |};
            options := (default false iw, default false ic) |}.
Proof.
  intros H1 H2 L1 L2. unfold compareFiles, CompareFilesSchema. simpl.
  rewrite (eqb_nonempty f1 H1), (eqb_nonempty f2 H2).
  unfold access, Fs.readFile. simpl. rewrite L1, L2. reflexivity.
Qed.

(** C1 (amended): compareFiles is a positional diff.  On two readable
    files, after the optional normalization, line [i] of file1 is compared
    with line [i] of file2, and a difference is reported at line [i + 1]
    only where the two files do not hold the same line at index [i]: a
    non-empty line past the end of file1 is reported [added], a non-empty
    line past the end of file2 [removed], and a mismatch inside both files
    [modified] with both line contents.  A file compared with itself is
    identical with no difference.  With no normalization requested and one
    line put in front of file2, relative to a file1 of [N] lines whose last
    line is not empty, there is one difference per index below [N] whose
    line differs from the line shifted onto it, and one more for the last
    line: at most [N + 1]. *)
Theorem compareFiles_positional_diff
    (f1 f2 : string) (iw ic : option bool) (fs : gmap string node)
    (b1 b2 : bytes) :
  f1 <> "" -> f2 <> "" ->
  fs !! f1 = Some (File b1) -> fs !! f2 = Some (File b2) ->
  let lines1 := Js.split_lines (normalize toLowerCase (default false iw)
                                  (default false ic) (Utf8.decode b1)) in
  let lines2 := Js.split_lines (normalize toLowerCase (default false iw)
                                  (default false ic) (Utf8.decode b2)) in
  exists d : CompareData,
    data (compareFiles toLowerCase
            {| file1 := f1; file2 := f2; ignoreWhitespace := iw;
               ignoreCase := ic |} fs) = Some d
    /\ totalDifferences d = length (differences d)
    /\ identical d = bool_decide (totalDifferences d = 0)
    (* a report at line i + 1 comes from index i, where the files differ *)
    /\ (forall x, x ∈ differences d ->
          exists i, line x = i + 1 /\ lines1 !! i <> lines2 !! i)
    (* the three kinds of report *)
    /\ (forall i b, length lines1 <= i -> lines2 !! i = Some b -> b <> [] ->
          {| line := i + 1; type := added; content := b |} ∈ differences d)
    /\ (forall i a, length lines2 <= i -> lines1 !! i = Some a -> a <> [] ->
          {| line := i + 1; type := removed; content := a |} ∈ differences d)
    /\ (forall i a b, lines1 !! i = Some a -> lines2 !! i = Some b -> a <> b ->
          {| line := i + 1; type := modified;
             content := modified_content a b |} ∈ differences d)
    (* a file against itself *)
    /\ (f1 = f2 -> identical d = true /\ totalDifferences d = 0)
    (* one line put in front of file2, no normalization *)
    /\ (forall x : text,
          default false iw = false -> default false ic = false ->
          Js.LF ∉ x -> Utf8.decode b2 = x ++ Js.LF :: Utf8.decode b1 ->
          last lines1 <> Some [] ->
          totalDifferences d
          = length (differing lines1 lines2 (length lines1)) + 1
          /\ totalDifferences d <= length lines1 + 1).
Proof.
  intros H1 H2 L1 L2 lines1 lines2.
  eexists. split; [by apply compareFiles_readable|]. simpl.
  fold lines1 lines2.
  assert (Hin : forall i d, i < Nat.max (length lines1) (length lines2) ->
            compare_at lines1 lines2 i [] = [d] ->
            d ∈ compare_lines lines1 lines2).
  { intros i d Hi Hd. apply compare_lines_elem. exists i.
    split; [done|]. rewrite Hd. by apply list_elem_of_singleton. }
  split; [reflexivity|]. split; [reflexivity|]. split.
  { intros x Hx. apply compare_lines_elem in Hx as [i [Hi Hx]]. exists i.
    destruct (decide (Js.index_or_empty lines1 i = Js.index_or_empty lines2 i))
      as [E|E].
    - rewrite compare_at_equal in Hx by done. by apply not_elem_of_nil in Hx.
    - destruct (compare_at_differ lines1 lines2 i E) as [d [Hd Hl]].
      rewrite Hd in Hx. apply list_elem_of_singleton in Hx as ->.
      split; [done|]. intros Hsame. apply E. unfold Js.index_or_empty.
      by rewrite Hsame. }
  split.
  { intros i b Hi Hb Hne. apply (Hin i).
    - apply lookup_lt_Some in Hb. lia.
    - by apply compare_at_added. }
  split.
  { intros i a Hi Ha Hne. apply (Hin i).
    - apply lookup_lt_Some in Ha. lia.
    - by apply compare_at_removed. }
  split.
  { intros i a b Ha Hb Hne. apply (Hin i).
    - apply lookup_lt_Some in Ha. lia.
    - by apply compare_at_modified. }
  split.
  { intros <-. assert (b1 = b2) as <- by congruence.
    subst lines2. fold lines1. rewrite compare_lines_same. done. }
  intros x Hiw Hic Hx Hdec Hlast.
  assert (Hl2 : lines2 = x :: lines1).
  { subst lines1 lines2. rewrite Hiw, Hic. simpl. rewrite Hdec.
    by apply split_lines_insert. }
  assert (Hne : lines1 <> []).
  { pose proof (split_lines_length
                  (normalize toLowerCase (default false iw) (default false ic)
                     (Utf8.decode b1))) as Hlen.
    fold lines1 in Hlen. intros E. rewrite E in Hlen. simpl in Hlen. lia. }
  rewrite Hl2. rewrite (compare_lines_shifted x lines1 Hlast Hne).
  rewrite mismatches_in_range.
  2:{ apply Forall_forall. intros i Hi. apply elem_of_seq in Hi.
      simpl. lia. }
  unfold differing. split; [reflexivity|].
  pose proof (length_filter
                (fun i => lines1 !! i <> (x :: lines1) !! i)
                (seq 0 (length lines1))) as Hf.
  rewrite length_seq in Hf. lia.
Qed.

(** C9: with [ignoreWhitespace] set, each readable file's normalized text
    holds no newline and splits into exactly one line, so that at most one
    difference is reported: none when the normalized texts are equal, and
    otherwise a single [modified] difference at line 1. *)
Theorem compareFiles_ignoreWhitespace_single_line
    (f1 f2 : string) (ic : option bool) (fs : gmap string node)
    (b1 b2 : bytes) :
  (forall s : text, Js.LF ∉ s -> Js.LF ∉ toLowerCase s) ->
  f1 <> "" -> f2 <> "" ->
  fs !! f1 = Some (File b1) -> fs !! f2 = Some (File b2) ->
  let text1 := normalize toLowerCase true (default false ic) (Utf8.decode b1) in
  let text2 := normalize toLowerCase true (default false ic) (Utf8.decode b2) in
  (Js.LF ∉ text1) /\ (Js.LF ∉ text2) /\
  exists d : CompareData,
    data (compareFiles toLowerCase
            {| file1 := f1; file2 := f2; ignoreWhitespace := Some true;
               ignoreCase := ic |} fs) = Some d
    /\ lines (compared1 d) = 1 /\ lines (compared2 d) = 1
    /\ totalDifferences d <= 1
    /\ (text1 = text2 ->
        differences d = [] /\ totalDifferences d = 0 /\ identical d = true)
    /\ (text1 <> text2 ->
        differences d = [{| line := 1; type := modified;
                            content := modified_content text1 text2 |}]
        /\ totalDifferences d = 1 /\ identical d = false).
Proof.
  intros Hlower H1 H2 L1 L2 text1 text2.
  assert (Hno : forall c, Js.LF ∉ normalize toLowerCase true (default false ic) c).
  { intros c. unfold normalize.
    assert (Js.LF ∉ Js.trim (Js.replace_space_runs false c)) as Ht.
    { intros Hin. apply trim_elem in Hin.
      by apply (replace_space_runs_no_LF c false). }
    destruct (default false ic); [by apply Hlower | done]. }
  split; [apply Hno|]. split; [apply Hno|].
  eexists. split.
  { apply (compareFiles_readable f1 f2 (Some true) ic fs b1 b2); assumption. }
  simpl. fold text1 text2.
  rewrite (split_lines_no_LF text1) by apply Hno.
  rewrite (split_lines_no_LF text2) by apply Hno.
  unfold compare_lines. simpl. unfold compare_at, Js.index_or_empty. simpl.
  split; [reflexivity|]. split; [reflexivity|].
  destruct (decide (text1 = text2)) as [E|E].
  - rewrite bool_decide_eq_false_2 by tauto. simpl.
    split; [lia|]. split; [done|]. intros; contradiction.
  - rewrite bool_decide_eq_true_2 by done. simpl.
    split; [lia|]. split; [intros; contradiction | done].
Qed.

End Compare_facts.

Section Compare_witnesses.
Import Fs AdvancedOperations Examples.
Local Open Scope Z_scope.

Lemma ascii_lower_no_LF (s : text) : Js.LF ∉ s -> Js.LF ∉ ascii_lower s.
Proof.
  unfold ascii_lower. induction s as [|c r IH]; intros Hs; simpl.
  - apply not_elem_of_nil.
  - apply not_elem_of_cons in Hs as [Hc Hr].
    apply not_elem_of_cons. split; [|by apply IH].
    unfold Js.LF in *.
    destruct (Z.leb_spec 65 c); destruct (Z.leb_spec c 90); simpl; lia.
Qed.

Lemma compareFiles_positional_diff_witness :
  exists d : CompareData,
    data (compareFiles ascii_lower
            {| file1 := "/1"; file2 := "/2"; ignoreWhitespace := None;
               ignoreCase := None |} two_files) = Some d
    /\ (totalDifferences d <= 3)%nat.
Proof.
  destruct (compareFiles_positional_diff ascii_lower "/1" "/2" None None
              two_files
              (Utf8.encode (Js.of_string "a" ++ Js.LF :: Js.of_string "b"))
              (Utf8.encode (Js.of_string "x" ++ Js.LF :: Js.of_string "a"
                              ++ Js.LF :: Js.of_string "b")))
    as (d & Hd & _ & _ & _ & _ & _ & _ & _ & Hshift);
    [discriminate | discriminate | reflexivity | reflexivity |].
  exists d. split; [exact Hd|].
  apply (Hshift (Js.of_string "x")).
  - reflexivity.
  - reflexivity.
  - vm_compute. intros H. inversion H; subst. inversion H2.
  - vm_compute. reflexivity.
  - vm_compute. discriminate.
Defined.

(** C1 as stated fails: file1 has [N = 2] lines, file2 is file1 with one
    line put in front, and three differences are reported, not two. *)
Lemma compareFiles_insert_line_not_N :
  let r := compareFiles ascii_lower
             {| file1 := "/1"; file2 := "/2"; ignoreWhitespace := None;
                ignoreCase := None |} two_files in
  (fun d => lines (compared1 d)) <$> data r = Some 2%nat
  /\ totalDifferences <$> data r = Some 3%nat
  /\ (fun d => type <$> differences d) <$> data r
     = Some [modified; modified; added].
Proof. vm_compute. repeat split. Qed.

(** An empty line past the end of the shorter file goes unreported: ["a"]
    against ["a\n"] counts as identical. *)
Example compareFiles_trailing_empty_line :
  let fs : gmap string node :=
    {[ "/1"%string := File (Utf8.encode (Js.of_string "a"));
       "/2"%string := File (Utf8.encode (Js.of_string "a" ++ [Js.LF])) ]} in
  let r := compareFiles ascii_lower
             {| file1 := "/1"; file2 := "/2"; ignoreWhitespace := None;
                ignoreCase := None |} fs in
  (fun d => (lines (compared1 d), lines (compared2 d))) <$> data r
  = Some (1%nat, 2%nat)
  /\ identical <$> data r = Some true.
Proof. vm_compute. repeat split. Qed.

Lemma compareFiles_ignoreWhitespace_single_line_witness :
  let fs : gmap string node :=
    {[ "/1"%string := File (Utf8.encode (Js.of_string "Line 1" ++ Js.LF :: Js.of_string "Line 2"));
       "/2"%string := File (Utf8.encode (Js.of_string "line 1" ++ Js.LF :: Js.LF :: Js.of_string "  line 3 ")) ]} in
  exists d : CompareData,
    data (compareFiles ascii_lower
            {| file1 := "/1"; file2 := "/2"; ignoreWhitespace := Some true;
               ignoreCase := Some true |} fs) = Some d
    /\ lines (compared1 d) = 1%nat /\ lines (compared2 d) = 1%nat
    /\ totalDifferences d = 1%nat.
Proof.
  intros fs.
  destruct (compareFiles_ignoreWhitespace_single_line ascii_lower
              "/1" "/2" (Some true) fs
              (Utf8.encode (Js.of_string "Line 1" ++ Js.LF :: Js.of_string "Line 2"))
              (Utf8.encode (Js.of_string "line 1" ++ Js.LF :: Js.LF :: Js.of_string "  line 3 ")))
    as (_ & _ & d & Hd & Hl1 & Hl2 & _ & _ & Hne);
    [apply ascii_lower_no_LF | discriminate | discriminate
     | reflexivity | reflexivity |].
  exists d. repeat split; try assumption.
  apply Hne. vm_compute. discriminate.
Defined.

End Compare_witnesses.

(** ** Facts about searchInFiles *)
Section Search_facts.
Import Fs AdvancedOperations SearchSpec.

Variable exec : text -> nat -> option (nat * text).
Variable contextLines : nat.

Local Abbreviation context_block := (SearchSpec.context_block contextLines).
Local Abbreviation match_spec := (SearchSpec.match_spec exec contextLines).
Local Abbreviation scan_inv := (SearchSpec.scan_inv exec contextLines).
Local Abbreviation result_spec := (SearchSpec.result_spec exec contextLines).

Lemma slice_run (l : list text) n : forall a,
  a + n <= length l ->
  take n (drop a l) = (fun j => Js.index_or_empty l j) <$> seq a n.
Proof.
  induction n as [|n IH]; intros a Hlen; [reflexivity|].
  destruct (lookup_lt_is_Some_2 l a ltac:(lia)) as [x Hx].
  rewrite (drop_S l x a Hx). simpl. unfold Js.index_or_empty at 1.
  rewrite Hx. simpl. f_equal. apply IH. lia.
Qed.

Lemma make_match_context lines i index m :
  i < length lines ->
  context (make_match contextLines lines i index m) = context_block lines i.
Proof.
  intros Hi. unfold make_match, SearchSpec.context_block, Js.slice. simpl. f_equal.
  replace (Z.to_nat
             (Z.min (Z.of_nat (length lines) - 1)
                (Z.of_nat i + Z.of_nat contextLines) + 1))
    with (Z.to_nat
            (Z.min (Z.of_nat (length lines) - 1)
               (Z.of_nat i + Z.of_nat contextLines)) + 1) by lia.
  apply slice_run. lia.
Qed.

Lemma StronglySorted_snoc {A} (R : A -> A -> Prop) l x :
  StronglySorted R l -> Forall (fun y => R y x) l ->
  StronglySorted R (l ++ [x]).
Proof.
  induction 1 as [|y l Hs IH Hy]; intros Hall; simpl.
  - repeat constructor.
  - apply Forall_cons in Hall as [Hyx Hall]. constructor; [by apply IH|].
    apply Forall_app. split; [done | by constructor].
Qed.

Hypothesis exec_from : forall line k index m,
  exec line k = Some (index, m) -> k <= index.

Lemma scan_line_inv lines i line fuel : forall k found found',
  lines !! i = Some line ->
  scan_inv lines i k found ->
  scan_line exec contextLines fuel lines i line k found = Some found' ->
  exists k', scan_inv lines i k' found'.
Proof.
  induction fuel as [|fuel IH]; intros k found found' Hline Hinv; simpl;
    [discriminate|].
  destruct (exec line k) as [[index m]|] eqn:Hexec.
  - apply IH; [done|]. destruct Hinv as (Hspec & Hsorted & Hbelow).
    pose proof (exec_from _ _ _ _ Hexec) as Hk.
    split; [|split].
    + apply Forall_app. split; [done|]. constructor; [|constructor].
      exists i, line, k, index. repeat split; try done.
      apply make_match_context. by apply lookup_lt_Some in Hline.
    + apply StronglySorted_snoc; [done|].
      eapply Forall_impl; [exact Hbelow|]. intros x Hx.
      unfold match_le, make_match. simpl in *. lia.
    + apply Forall_app. split.
      * eapply Forall_impl; [exact Hbelow|]. intros x Hx. simpl in Hx. lia.
      * constructor; [|constructor]. unfold make_match. simpl. lia.
  - intros [= <-]. by exists k.
Qed.

Lemma scan_from_inv lines fuel remaining : forall i found found',
  scan_inv lines i 0 found ->
  scan_from exec contextLines fuel lines i remaining found = Some found' ->
  Forall (match_spec lines) found' /\ StronglySorted match_le found'.
Proof.
  induction remaining as [|remaining IH]; intros i found found' Hinv; simpl.
  - intros [= <-]. destruct Hinv as (? & ? & ?). done.
  - assert (Hnext : forall k f, scan_inv lines i k f -> scan_inv lines (S i) 0 f).
    { intros k f (Hspec & Hsorted & Hbelow). split; [done|]. split; [done|].
      eapply Forall_impl; [exact Hbelow|]. intros x Hx. simpl in Hx. lia. }
    destruct (lines !! i) as [[|c line]|] eqn:Hline.
    + apply IH. by apply (Hnext 0).
    + destruct (scan_line _ _ _ _ _ _ _ _) as [found1|] eqn:Hscan;
        [|discriminate].
      destruct (scan_line_inv _ _ _ _ _ _ _ Hline Hinv Hscan) as [k' Hinv'].
      apply IH. by apply (Hnext k').
    + apply IH. by apply (Hnext 0).
Qed.

Lemma scan_content_inv fuel content found :
  scan_content exec contextLines fuel content = Some found ->
  Forall (match_spec (Js.split_lines content)) found
  /\ StronglySorted match_le found.
Proof.
  unfold scan_content. apply scan_from_inv.
  split; [constructor|]. split; constructor.
Qed.

Lemma search_files_inv fuel fs files : forall results results',
  Forall (result_spec fs) results ->
  search_files exec contextLines fuel files fs results = Some results' ->
  Forall (result_spec fs) results'.
Proof.
  induction files as [|p rest IH]; intros results results' Hres; simpl.
  - by intros [= <-].
  - destruct (fs !! p) as [[buffer|]|] eqn:Hp; try by apply IH.
    destruct (scan_content _ _ _ _) as [found|] eqn:Hscan; [|discriminate].
    destruct (scan_content_inv _ _ _ Hscan) as [Hspec Hsorted].
    destruct found as [|m found]; [by apply IH|].
    apply IH. apply Forall_app. split; [done|].
    constructor; [|constructor]. exists buffer. done.
Qed.

(** *** The scan returns when every match is non-empty *)

Hypothesis exec_progress : forall line k index m,
  exec line k = Some (index, m) -> m <> [] /\ index + length m <= length line.

Lemma scan_line_returns lines i line fuel : forall k found,
  k <= length line -> length line + 1 <= fuel + k ->
  is_Some (scan_line exec contextLines fuel lines i line k found).
Proof.
  induction fuel as [|fuel IH]; intros k found Hk Hfuel; simpl; [lia|].
  destruct (exec line k) as [[index m]|] eqn:Hexec; [|by eexists].
  pose proof (exec_from _ _ _ _ Hexec) as Hfrom.
  destruct (exec_progress _ _ _ _ Hexec) as [Hm Hend].
  assert (0 < length m) by (destruct m; [done | simpl; lia]).
  apply IH; lia.
Qed.

Lemma scan_from_returns lines fuel remaining : forall i found,
  Forall (fun line : text => length line < fuel) lines ->
  is_Some (scan_from exec contextLines fuel lines i remaining found).
Proof.
  induction remaining as [|remaining IH]; intros i found Hlines; simpl;
    [by eexists|].
  destruct (lines !! i) as [[|c line]|] eqn:Hline; try by apply IH.
  pose proof (Forall_lookup_1 _ _ _ _ Hlines Hline) as Hlen.
  cbv beta in Hlen.
  destruct (scan_line_returns lines i (c :: line) fuel 0 found) as [f Hf];
    [lia | lia |].
  rewrite Hf. by apply IH.
Qed.

Lemma split_lines_bounded (s : text) :
  Forall (fun line : text => length line <= length s) (Js.split_lines s).
Proof.
  induction s as [|c r IH]; simpl; [repeat constructor|].
  destruct (Z.eqb c Js.LF).
  - constructor; [simpl; lia|].
    eapply Forall_impl; [exact IH|]. simpl. intros; lia.
  - destruct (Js.split_lines r) as [|l ls].
    { constructor; [simpl; lia | constructor]. }
    apply Forall_cons in IH as [Hl Hls]. constructor; [simpl; lia|].
    eapply Forall_impl; [exact Hls|]. simpl. intros; lia.
Qed.

Lemma scan_content_returns fuel content :
  length content < fuel ->
  is_Some (scan_content exec contextLines fuel content).
Proof.
  intros Hfuel. unfold scan_content. apply scan_from_returns.
  eapply Forall_impl; [apply split_lines_bounded|]. simpl. intros; lia.
Qed.

Lemma search_files_returns fuel fs files : forall results,
  (forall p buffer, p ∈ files -> fs !! p = Some (File buffer) ->
     length (Utf8.decode buffer) < fuel) ->
  is_Some (search_files exec contextLines fuel files fs results).
Proof.
  induction files as [|p rest IH]; intros results Hfuel; simpl; [by eexists|].
  assert (Hrest : forall q buffer, q ∈ rest -> fs !! q = Some (File buffer) ->
            length (Utf8.decode buffer) < fuel).
  { intros q buffer Hq. apply Hfuel. by right. }
  destruct (fs !! p) as [[buffer|]|] eqn:Hp; try by apply IH.
  destruct (scan_content_returns fuel (Utf8.decode buffer)) as [found Hf].
  { apply (Hfuel p); [by left | done]. }
  rewrite Hf. destruct found; by apply IH.
Qed.

End Search_facts.

(** C7: every match that searchInFiles finds in a file is a hit of the
    regular expression on one of the file's lines, its column is the
    offset of the hit on that line counted from 1, its context block is the
    run of lines from [max(0, i - contextLines)] to [min(lastLine, i +
    contextLines)] around the line index [i] of the hit, joined with
    newlines, and the matches of a file are in ascending order of line,
    then of column.  The search returns whenever the expression has no
    empty match. *)
Theorem searchInFiles_matches
    (exec : text -> nat -> option (nat * text)) (contextLines : nat)
    (files : list string) (fs : gmap string Fs.node) :
  (forall line k index m, exec line k = Some (index, m) -> k <= index) ->
  (forall fuel results,
     AdvancedOperations.search_files exec contextLines fuel files fs []
     = Some results ->
     forall r, r ∈ results ->
       exists buffer : bytes,
         fs !! AdvancedOperations.result_path r = Some (Fs.File buffer)
         /\ (forall m, m ∈ AdvancedOperations.matches r ->
               SearchSpec.match_spec exec contextLines
                 (Js.split_lines (Utf8.decode buffer)) m)
         /\ StronglySorted SearchSpec.match_le (AdvancedOperations.matches r))
  /\ ((forall line k index m,
         exec line k = Some (index, m) ->
         m <> [] /\ index + length m <= length line) ->
      forall fuel,
        (forall p buffer, p ∈ files -> fs !! p = Some (Fs.File buffer) ->
           length (Utf8.decode buffer) < fuel) ->
        is_Some (AdvancedOperations.search_files exec contextLines fuel
                   files fs [])).
Proof.
  intros Hfrom. split.
  - intros fuel results Hres r Hr.
    pose proof (search_files_inv exec contextLines Hfrom fuel fs files []
                  results (Forall_nil_2 _) Hres) as Hall.
    rewrite Forall_forall in Hall. destruct (Hall r Hr) as (b & Hb & Hm & Hs).
    exists b. split; [done|]. split; [|done].
    intros m Hin. rewrite Forall_forall in Hm. by apply Hm.
  - intros Hprogress fuel Hfuel.
    by apply search_files_returns.
Qed.

Section Search_witnesses.
Import Fs AdvancedOperations Examples.
Local Open Scope Z_scope.

Lemma index_from_ge c line : forall pos k i,
  index_from c line pos k = Some i -> (k <= i)%nat.
Proof.
  induction line as [|x r IH]; intros pos k i; simpl; [discriminate|].
  destruct (Nat.leb_spec k pos); simpl.
  - destruct (x =? c); [intros [= <-]; lia | apply IH].
  - apply IH.
Qed.

Lemma exec_unit_from c line k index m :
  exec_unit c line k = Some (index, m) -> (k <= index)%nat.
Proof.
  unfold exec_unit. destruct (index_from c line 0 k) as [i|] eqn:E;
    simpl; [|discriminate].
  intros [= <- <-]. by apply index_from_ge in E.
Qed.

(** The letter [a] searched in the three lines, one line of context: four
    hits, in order, each with its block of lines. *)
Example search_fruit :
  search_files (exec_unit 97) 1 10 ["/t/fruit.txt"%string] fruit []
  = Some [{| result_path := "/t/fruit.txt";
             matches :=
               [{| match_line := 1; column := 2; matched := [97];
                   context := Js.of_string "banana" ++ Js.LF :: Js.of_string "kiwi" |};
                {| match_line := 1; column := 4; matched := [97];
                   context := Js.of_string "banana" ++ Js.LF :: Js.of_string "kiwi" |};
                {| match_line := 1; column := 6; matched := [97];
                   context := Js.of_string "banana" ++ Js.LF :: Js.of_string "kiwi" |};
                {| match_line := 3; column := 1; matched := [97];
                   context := Js.of_string "kiwi" ++ Js.LF :: Js.of_string "abc" |}];
             fileInfo := File (Utf8.encode (Js.of_string "banana" ++ Js.LF
                                 :: Js.of_string "kiwi" ++ Js.LF :: Js.of_string "abc")) |}].
Proof. vm_compute. reflexivity. Qed.

(** An expression with an empty match never leaves the loop on a line. *)
Example search_empty_match_runs_on :
  forall fuel,
    scan_line (fun _ k => Some (k, [])) 1 fuel [[97]] 0 [97] 0 [] = None.
Proof.
  intros fuel. generalize (@nil search_match).
  induction fuel as [|fuel IH]; intros found; simpl; [reflexivity | apply IH].
Qed.

Lemma searchInFiles_matches_witness :
  search_files (exec_unit 97) 0 10 ["/t/fruit.txt"%string] fruit []
  = Some [fruit_result]
  /\ StronglySorted SearchSpec.match_le (matches fruit_result).
Proof.
  assert (Hrun : search_files (exec_unit 97) 0 10 ["/t/fruit.txt"%string]
                   fruit [] = Some [fruit_result])
    by (vm_compute; reflexivity).
  split; [exact Hrun|].
  destruct (proj1 (searchInFiles_matches (exec_unit 97) 0
                     ["/t/fruit.txt"%string] fruit (exec_unit_from 97))
              10%nat [fruit_result] Hrun fruit_result
              (list_elem_of_here fruit_result []))
    as (b & _ & _ & Hsorted).
  exact Hsorted.
Defined.

End Search_witnesses.

(** ** Facts about the watcher registry *)
Section Watch_facts.
Import Fs AdvancedOperations WatchSpec.

Variable close_error : nat -> option string.

Lemma watchFile_fresh args fs reg :
  watch_path args <> "" -> is_Some (fs !! watch_path args) ->
  watchers reg !! watch_path args = None ->
  watchFile close_error args fs reg
  = (mkResult true "File watching started successfully"
       (Some (watch_path args))
       (Some {| watching := true;
                recursive := default false (watch_recursive args);
                ignoreInitial := default true (watch_ignoreInitial args);
                events := [] |}) None,
     (start_watcher (watch_path args)
        {| ignored := watch_ignored args;
           options_ignoreInitial := default true (watch_ignoreInitial args);
           depth := if default false (watch_recursive args)
                    then None else Some 0 |} reg).2).
Proof.
  intros Hp [n Hn] Hw. unfold watchFile, WatchFileSchema.
  rewrite (eqb_nonempty _ Hp). unfold ret, access. rewrite Hn. simpl.
  rewrite Hw. rewrite bool_decide_eq_false_2 by (intros [? ?]; discriminate).
  simpl. by rewrite lookup_insert_eq.
Qed.

(** Replacing: the old watcher is closed and dropped, then a new one is
    started. *)
Lemma watchFile_replace args fs reg old :
  watch_path args <> "" -> is_Some (fs !! watch_path args) ->
  watchers reg !! watch_path args = Some old ->
  close_error old = None ->
  watchFile close_error args fs reg
  = (mkResult true "File watching started successfully"
       (Some (watch_path args))
       (Some {| watching := true;
                recursive := default false (watch_recursive args);
                ignoreInitial := default true (watch_ignoreInitial args);
                events := [] |}) None,
     (start_watcher (watch_path args)
        {| ignored := watch_ignored args;
           options_ignoreInitial := default true (watch_ignoreInitial args);
           depth := if default false (watch_recursive args)
                    then None else Some 0 |}
        (stopWatching close_error (watch_path args) reg).2).2).
Proof.
  intros Hp [n Hn] Hw Hclose. unfold watchFile, WatchFileSchema.
  rewrite (eqb_nonempty _ Hp). unfold ret, access. rewrite Hn. simpl.
  rewrite Hw. rewrite bool_decide_eq_true_2 by eauto.
  simpl. by rewrite lookup_insert_eq.
Qed.

Lemma watchFile_success args fs reg :
  success (watchFile close_error args fs reg).1 = true ->
  watch_path args <> "" /\ is_Some (fs !! watch_path args).
Proof.
  unfold watchFile, WatchFileSchema.
  destruct (String.eqb_spec (watch_path args) ""); [simpl; discriminate|].
  unfold ret, access.
  destruct (fs !! watch_path args); [eauto | simpl; discriminate].
Qed.

(** C4: two successful calls of [watchFile] on [p] in a row, chokidar
    closing the two watchers without error, leave one registration for
    [p], that of the second watcher, which runs while the first watcher is
    closed, and the registrations of other paths are as before;
    [stopWatching(p)] then succeeds and removes it, and one more
    [stopWatching(p)] fails with the error [Watcher not found]. *)
Theorem watch_twice_then_stop
    (p : string) (args1 args2 : WatchFileArgs) (fs1 fs2 : gmap string node)
    (reg : registry) :
  let first := next_watcher reg in
  let second := S (next_watcher reg) in
  let w1 := watchFile close_error args1 fs1 reg in
  let w2 := watchFile close_error args2 fs2 w1.2 in
  let s1 := stopWatching close_error p w2.2 in
  let s2 := stopWatching close_error p s1.2 in
  watch_path args1 = p -> watch_path args2 = p ->
  success w1.1 = true -> success w2.1 = true ->
  close_error first = None -> close_error second = None ->
  watchers w1.2 !! p = Some first
  /\ watchers w2.2 !! p = Some second
  /\ (second ∈ running w2.2) /\ (first ∉ running w2.2)
  /\ (forall q, q <> p -> watchers w2.2 !! q = watchers reg !! q)
  /\ success s1.1 = true
  /\ watchers s1.2 !! p = None /\ (second ∉ running s1.2)
  /\ success s2.1 = false /\ error s2.1 = Some "Watcher not found"%string
  /\ s2.2 = s1.2.
Proof.
  intros first second w1 w2 s1 s2 H1 H2 Hok1 Hok2 Hc1 Hc2.
  destruct (watchFile_success _ _ _ Hok1) as [Hp Hfs1].
  destruct (watchFile_success _ _ _ Hok2) as [_ Hfs2].
  rewrite H1 in Hp, Hfs1. rewrite H2 in Hfs2. clear Hok1 Hok2.
  assert (Hw1 : watchers w1.2 !! p = Some first
                /\ next_watcher w1.2 = second
                /\ forall q, q <> p -> watchers w1.2 !! q = watchers reg !! q).
  { subst w1. destruct (watchers reg !! p) as [old|] eqn:Hold.
    - unfold watchFile, WatchFileSchema. rewrite H1, (eqb_nonempty _ Hp).
      unfold ret, access. destruct Hfs1 as [n ->]. simpl. rewrite Hold.
      rewrite bool_decide_eq_true_2 by eauto.
      unfold stopWatching, close. rewrite Hold.
      destruct (close_error old); simpl; rewrite lookup_insert_eq;
        (split; [done|]); (split; [done|]);
        intros q Hq; rewrite lookup_insert_ne by done;
        [done | by rewrite lookup_delete_ne].
    - rewrite watchFile_fresh; rewrite ?H1; try done. simpl.
      rewrite lookup_insert_eq. repeat split; try done.
      intros q Hq. by rewrite lookup_insert_ne. }
  destruct Hw1 as (Hreg1 & Hnext1 & Hother1).
  assert (Hstop : (stopWatching close_error p w1.2).2
                  = {| watchers := delete p (watchers w1.2);
                       running := running w1.2 ∖ {[first]};
                       listening := listening w1.2;
                       created_with := created_with w1.2;
                       next_watcher := second |}).
  { unfold stopWatching, close. rewrite Hreg1, Hc1. simpl. by rewrite Hnext1. }
  assert (Hw2 : w2.2
                = {| watchers := <[p := second]> (delete p (watchers w1.2));
                     running := {[second]} ∪ running w1.2 ∖ {[first]};
                     listening := <[second := []]> (listening w1.2);
                     created_with :=
                       <[second :=
                           {| ignored := watch_ignored args2;
                              options_ignoreInitial :=
                                default true (watch_ignoreInitial args2);
                              depth := if default false (watch_recursive args2)
                                       then None else Some 0 |}]>
                         (created_with w1.2);
                     next_watcher := S second |}).
  { subst w2. rewrite (watchFile_replace args2 fs2 w1.2 first);
      rewrite ?H2; try done. simpl. rewrite Hstop. reflexivity. }
  assert (Hs1 : s1 = (mkResult true "Watching stopped successfully" (Some p)
                        (Some {| still_watching := false |}) None,
                      {| watchers := delete p (watchers w2.2);
                         running := running w2.2 ∖ {[second]};
                         listening := listening w2.2;
                         created_with := created_with w2.2;
                         next_watcher := next_watcher w2.2 |})).
  { subst s1. unfold stopWatching, close. rewrite Hw2. simpl.
    rewrite lookup_insert_eq, Hc2. reflexivity. }
  assert (Hs2 : s2 = (mkResult false "No active watcher found for path"
                        (Some p) None (Some "Watcher not found"%string), s1.2)).
  { subst s2. rewrite Hs1. unfold stopWatching. simpl.
    by rewrite lookup_delete_eq. }
  rewrite Hs2, Hs1, Hw2. simpl.
  rewrite lookup_insert_eq, lookup_delete_eq.
  assert (first <> second) by (subst first second; lia).
  repeat split; try done.
  - apply elem_of_union. left. by apply elem_of_singleton.
  - intros Hin. apply elem_of_union in Hin as [Hin|Hin].
    + by apply elem_of_singleton in Hin.
    + apply elem_of_difference in Hin as [_ Hin]. apply Hin.
      by apply elem_of_singleton.
  - intros q Hq. rewrite lookup_insert_ne, lookup_delete_ne by done.
    by apply Hother1.
  - intros Hin. apply elem_of_difference in Hin as [_ Hin]. apply Hin.
    by apply elem_of_singleton.
Qed.

(** The listeners of a running watcher keep every event, in order. *)
Lemma emit_all watcher (evs : list FileWatchEvent) : forall reg held,
  watcher ∈ running reg -> listening reg !! watcher = Some held ->
  listening (foldl (fun r e => emit watcher e r) reg evs) !! watcher
  = Some (held ++ evs)
  /\ watchers (foldl (fun r e => emit watcher e r) reg evs) = watchers reg
  /\ running (foldl (fun r e => emit watcher e r) reg evs) = running reg.
Proof.
  induction evs as [|e evs IH]; intros reg held Hrun Hheld; simpl.
  - by rewrite app_nil_r.
  - destruct (IH (emit watcher e reg) (held ++ [e])) as (Hl & Hw & Hr).
    + unfold emit. by rewrite bool_decide_eq_true_2.
    + unfold emit. rewrite bool_decide_eq_true_2 by done. simpl.
      rewrite lookup_alter_eq, Hheld. done.
    + rewrite Hl, Hw, Hr, <- app_assoc. unfold emit.
      rewrite bool_decide_eq_true_2 by done. done.
Qed.

(** C3 (amended): a successful [watchFile] returns an empty list of events;
    the events of a running watcher then accumulate in the array of its
    listeners in arrival order, none being dropped, whatever their number;
    and what [watchFile] and [stopWatching] return does not depend on the
    events accumulated, which no operation reads back. *)
Theorem watch_events_accumulate
    (args : WatchFileArgs) (fs : gmap string node) (reg : registry)
    (evs : list FileWatchEvent) :
  success (watchFile close_error args fs reg).1 = true ->
  let started := watchFile close_error args fs reg in
  let watcher := next_watcher reg in
  let after := foldl (fun r e => emit watcher e r) started.2 evs in
  events <$> data started.1 = Some []
  /\ watchers started.2 !! watch_path args = Some watcher
  /\ listening after !! watcher = Some evs
  /\ (forall reg' a p,
        same_but_events after reg' ->
        (watchFile close_error a fs after).1
        = (watchFile close_error a fs reg').1
        /\ (stopWatching close_error p after).1
           = (stopWatching close_error p reg').1).
Proof.
  intros Hok started watcher after.
  assert (Hstart : events <$> data started.1 = Some []
            /\ watchers started.2 !! watch_path args = Some watcher
            /\ watcher ∈ running started.2
            /\ listening started.2 !! watcher = Some []).
  { subst started. revert Hok. unfold watchFile, WatchFileSchema.
    destruct (String.eqb (watch_path args) ""); [simpl; discriminate|].
    unfold ret.
    destruct (access (watch_path args) fs); [simpl; discriminate|]. simpl.
    intros _. rewrite !lookup_insert_eq.
    assert (Hn : forall b : bool,
              next_watcher (if b then (stopWatching close_error
                                         (watch_path args) reg).2 else reg)
              = next_watcher reg).
    { intros []; [|done]. unfold stopWatching, close.
      destruct (watchers reg !! watch_path args); [|done].
      by destruct (close_error _). }
    rewrite Hn. repeat split; try done; try set_solver.
    unfold watcher. apply lookup_insert_eq. }
  destruct Hstart as (Hev & Hreg & Hrun & Hl).
  destruct (emit_all watcher evs started.2 [] Hrun Hl) as (Hl' & Hw' & Hr').
  split; [done|]. split; [done|]. split; [done|].
  intros reg' a p (Ew & Er & Ec & En). split.
  - unfold watchFile. destruct (WatchFileSchema a) as [e|[[[pa r] i] ig]];
      [done|].
    destruct (access pa fs); [done|]. simpl.
    by rewrite !lookup_insert_eq.
  - unfold stopWatching, close. rewrite <- Ew.
    destruct (watchers after !! p); [|done].
    by destruct (close_error _).
Qed.

End Watch_facts.

Section Watch_witnesses.
Import Fs AdvancedOperations Examples.

Lemma watch_twice_then_stop_witness :
  error (stopWatching all_close "/w"
           (stopWatching all_close "/w"
              (watchFile all_close watch_w watched_files
                 (watchFile all_close watch_w watched_files no_watchers).2).2).2).1
  = Some "Watcher not found"%string.
Proof.
  apply (watch_twice_then_stop all_close "/w" watch_w watch_w watched_files
           watched_files no_watchers);
    reflexivity.
Defined.

Lemma watch_events_accumulate_witness :
  listening
    (foldl (fun r e => emit 0 e r)
       (watchFile all_close watch_w watched_files no_watchers).2
       (changed <$> seq 0 11)) !! 0
  = Some (changed <$> seq 0 11).
Proof.
  apply (watch_events_accumulate all_close watch_w watched_files no_watchers
           (changed <$> seq 0 11)).
  reflexivity.
Defined.

(** C3 as stated fails: after eleven events the array of the listeners
    holds all eleven, the oldest first, and the call of [watchFile] had
    returned no event. *)
Lemma watch_events_not_a_ring :
  let started := watchFile all_close watch_w watched_files no_watchers in
  let after := foldl (fun r e => emit 0 e r) started.2 (changed <$> seq 0 11) in
  events <$> data started.1 = Some []
  /\ length <$> listening after !! 0 = Some 11
  /\ (fun held => head held) <$> listening after !! 0 = Some (Some (changed 0)).
Proof. vm_compute. repeat split. Qed.

End Watch_witnesses.

(** ** Facts about the cache and the resources *)
Section Server_facts.
Import Fs Server.
Local Open Scope Z_scope.

Variable V : Type.
Variable fresh : computed_kind -> string -> world -> V.
Variable decodeURIComponent : string -> throws string.
Variable JSON_stringify : string -> string.

Local Abbreviation key_of r :=
  (getCacheKey JSON_stringify (type V r) (param V r) (arg V r)).
Local Abbreviation read :=
  (readResource V fresh decodeURIComponent JSON_stringify).

Lemma substring_all (s : string) :
  String.substring 0 (String.length s) s = s.
Proof. induction s as [|a s IH]; simpl; [reflexivity | by rewrite IH]. Qed.

Lemma strip_Some prefix : forall uri rest,
  strip prefix uri = Some rest -> uri = prefix +:+ rest.
Proof.
  unfold strip. induction prefix as [|a prefix IH]; intros uri rest; simpl.
  - rewrite Nat.sub_0_r, substring_all. destruct uri; simpl; intros [= <-]; reflexivity.
  - destruct uri as [|b uri]; simpl; [discriminate|].
    destruct (Ascii.ascii_dec a b) as [->|]; [|discriminate].
    intros H. change (String b uri = String b (prefix +:+ rest)).
    f_equal. by apply IH.
Qed.

(** A miss computes, stamps and stores. *)
Lemma serve_miss (r : request V) now later w cache :
  (getCachedData V (key_of r) now cache).1 = None ->
  exists cache',
    serve V JSON_stringify r now later w cache
    = ({| body := compute V r w; cached := false; data_timestamp := later |},
       <[key_of r := {| data := {| body := compute V r w; cached := false;
                                   data_timestamp := later |};
                        timestamp := later; ttl := request_ttl V r |}]> cache').
Proof.
  unfold serve.
  destruct (getCachedData V (key_of r) now cache) as [[d|] cache'];
    [discriminate|].
  intros _. by exists cache'.
Qed.

(** A hit within the window returns the stored object, flagged. *)
Lemma serve_hit (r : request V) now later w cache d stored :
  cache !! key_of r = Some {| data := d; timestamp := stored;
                              ttl := request_ttl V r |} ->
  now - stored <= request_ttl V r ->
  serve V JSON_stringify r now later w cache
  = ({| body := body V d; cached := true;
        data_timestamp := data_timestamp V d |},
     <[key_of r := {| data := {| body := body V d; cached := true;
                                 data_timestamp := data_timestamp V d |};
                      timestamp := stored; ttl := request_ttl V r |}]> cache).
Proof.
  intros Hentry Hfresh. unfold serve, getCachedData. rewrite Hentry. simpl.
  destruct (Z.gtb_spec (now - stored) (request_ttl V r)); [lia|].
  f_equal. unfold mark_cached. apply map_eq. intros k.
  destruct (decide (k = key_of r)) as [->|Hk].
  - by rewrite lookup_alter_eq, lookup_insert_eq, Hentry.
  - by rewrite lookup_alter_ne, lookup_insert_ne.
Qed.

(** C2: when the first fetch of a resource misses the cache, it returns
    the freshly computed payload with [cached = false]; a second fetch no
    later than the TTL after the first was stored returns the same payload
    with [cached = true], whatever the underlying data have become; and once
    the TTL has elapsed the lookup returns nothing and evicts the entry, and
    the fetch recomputes, returns [cached = false] with the new timestamp
    and stores that payload anew. *)
Theorem cache_law
    (uri : string) (r : request V) (cache : gmap string (cache_entry V))
    (t1 l1 t2 l2 t3 l3 : Z) (w1 w2 w3 : world) :
  route V fresh decodeURIComponent uri = Some (inr r) ->
  (getCachedData V (key_of r) t1 cache).1 = None ->
  t2 - l1 <= request_ttl V r ->
  t3 - l1 > request_ttl V r ->
  let f1 := read uri t1 l1 w1 cache in
  let f2 := read uri t2 l2 w2 f1.2 in
  let f3 := read uri t3 l3 w3 f2.2 in
  f1.1 = inr {| body := compute V r w1; cached := false;
                data_timestamp := l1 |}
  /\ f2.1 = inr {| body := compute V r w1; cached := true;
                   data_timestamp := l1 |}
  /\ getCachedData V (key_of r) t3 f2.2 = (None, delete (key_of r) f2.2)
  /\ f3.1 = inr {| body := compute V r w3; cached := false;
                   data_timestamp := l3 |}
  /\ f3.2 !! key_of r
     = Some {| data := {| body := compute V r w3; cached := false;
                          data_timestamp := l3 |};
               timestamp := l3; ttl := request_ttl V r |}.
Proof.
  intros Hroute Hmiss Hin Hout f1 f2 f3.
  destruct (serve_miss r t1 l1 w1 cache Hmiss) as [c1 E1].
  assert (H1 : f1 = (inr {| body := compute V r w1; cached := false;
                            data_timestamp := l1 |},
                     <[key_of r := {| data := {| body := compute V r w1;
                                                 cached := false;
                                                 data_timestamp := l1 |};
                                      timestamp := l1;
                                      ttl := request_ttl V r |}]> c1)).
  { subst f1. unfold readResource. by rewrite Hroute, E1. }
  assert (H2 : f2 = (inr {| body := compute V r w1; cached := true;
                            data_timestamp := l1 |},
                     <[key_of r := {| data := {| body := compute V r w1;
                                                 cached := true;
                                                 data_timestamp := l1 |};
                                      timestamp := l1;
                                      ttl := request_ttl V r |}]> f1.2)).
  { subst f2. unfold readResource. rewrite Hroute, H1. simpl.
    rewrite (serve_hit r t2 l2 w2 _
               {| body := compute V r w1; cached := false;
                  data_timestamp := l1 |} l1);
      [reflexivity | by rewrite lookup_insert_eq | exact Hin]. }
  assert (H3 : getCachedData V (key_of r) t3 f2.2
               = (None, delete (key_of r) f2.2)).
  { rewrite H2. unfold getCachedData. simpl. rewrite lookup_insert_eq. simpl.
    destruct (Z.gtb_spec (t3 - l1) (request_ttl V r)); [done | lia]. }
  split; [by rewrite H1|]. split; [by rewrite H2|]. split; [exact H3|].
  subst f3. unfold readResource. rewrite Hroute. unfold serve. rewrite H3.
  simpl. unfold setCachedData. by rewrite lookup_insert_eq.
Qed.

(** C8: a read of the watch-status resource that misses the cache reports
    [isWatching = false] and no event, whatever the watcher registry
    holds. *)
Theorem watch_status_ignores_registry
    (uri rest p : string) (now later : Z) (w : world)
    (cache : gmap string (cache_entry V)) :
  strip "file://watch/status/" uri = Some rest ->
  decodeURIComponent rest = inr p ->
  (getCachedData V (getCacheKey JSON_stringify "watch_status" "path" p)
     now cache).1 = None ->
  (read uri now later w cache).1
  = inr {| body := WatchStatus V p false []; cached := false;
           data_timestamp := later |}.
Proof.
  intros Hstrip Hdecode Hmiss.
  assert (Hroute : route V fresh decodeURIComponent uri
            = Some (inr {| type := "watch_status"; param := "path"; arg := p;
                           request_ttl := FILE_WATCH_CACHE_TTL;
                           compute := fun _ => WatchStatus V p false [] |})).
  { unfold route. rewrite Hstrip.
    apply strip_Some in Hstrip. subst uri. simpl.
    unfold bind. by rewrite Hdecode. }
  unfold readResource. rewrite Hroute.
  destruct (serve_miss
              {| type := "watch_status"; param := "path"; arg := p;
                 request_ttl := FILE_WATCH_CACHE_TTL;
                 compute := fun _ => WatchStatus V p false [] |}
              now later w cache Hmiss) as [c E].
  by rewrite E.
Qed.

End Server_facts.

Section Server_witnesses.
Import Fs Server Examples.
Local Open Scope Z_scope.

Lemma cache_law_witness :
  let uri := "file://metadata//w"%string in
  let f1 := readResource nat size_of inr json_string uri 0 5 watching_w ∅ in
  let f2 := readResource nat size_of inr json_string uri 300005 300007
              watching_w f1.2 in
  f1.1 = inr {| body := Computed nat metadata "/w" 0%nat; cached := false;
                data_timestamp := 5 |}
  /\ f2.1 = inr {| body := Computed nat metadata "/w" 0%nat; cached := true;
                   data_timestamp := 5 |}.
Proof.
  intros uri f1 f2.
  destruct (cache_law nat size_of inr json_string uri
              {| type := "metadata"; param := "path"; arg := "/w";
                 request_ttl := DEFAULT_CACHE_TTL;
                 compute := fun w => Computed nat metadata "/w"
                                       (size_of metadata "/w" w) |}
              ∅ 0 5 300005 300007 300006 300008 watching_w watching_w
              watching_w)
    as (H1 & H2 & _); [reflexivity | reflexivity | | | ].
  - vm_compute. discriminate.
  - reflexivity.
  - split; [exact H1 | exact H2].
Defined.

Lemma watch_status_ignores_registry_witness :
  AdvancedOperations.watchers (watch_registry watching_w) !! "/w"%string
  = Some 0%nat
  /\ (readResource nat size_of inr json_string "file://watch/status//w"
        0 0 watching_w ∅).1
     = inr {| body := WatchStatus nat "/w" false []; cached := false;
              data_timestamp := 0 |}.
Proof.
  split; [reflexivity|].
  apply (watch_status_ignores_registry nat size_of inr json_string
           "file://watch/status//w" "/w" "/w" 0 0 watching_w ∅);
    reflexivity.
Defined.

End Server_witnesses.

(** ** More on file-operations.ts: sizes, appending, what a write or a
    delete leaves alone, ranged reads, the result envelope *)
Section Utf8_more.
Import Utf8 MoreSpec.
Local Open Scope Z_scope.




Lemma well_formed_app_aux n : forall a b,
  (length a <= n)%nat -> well_formed a = true ->
  well_formed (a ++ b) = well_formed b
  /\ code_points (a ++ b) = code_points a ++ code_points b.
Proof.
  induction n as [|n IH]; intros a b Hlen Ha.
  { destruct a; [done | simpl in Hlen; lia]. }
  destruct a as [|c r]; [done|]. simpl in Ha, Hlen |- *.
  destruct (is_high_surrogate c).
  - destruct r as [|d r']; [discriminate|].
    apply andb_true_iff in Ha as [Hl Ha]. simpl. rewrite Hl. simpl.
    destruct (IH r' b ltac:(simpl in Hlen; lia) Ha) as [-> ->]. done.
  - rewrite !andb_true_iff in Ha. destruct Ha as [[[Hl H0] H1] Ha].
    rewrite Hl, H0, H1. simpl. apply negb_true_iff in Hl. rewrite Hl.
    destruct (IH r b ltac:(lia) Ha) as [-> ->]. done.
Qed.

(** Encoding well-formed strings commutes with concatenation, and so
    does decoding what was encoded. *)
Lemma decode_encode_app a b :
  well_formed a = true -> well_formed b = true ->
  decode (encode a ++ encode b) = a ++ b.
Proof.
  intros Ha Hb.
  destruct (well_formed_app_aux (length a) a b ltac:(lia) Ha) as [Hwf Hcp].
  rewrite <- (decode_encode (a ++ b)) by (by rewrite Hwf).
  unfold encode. by rewrite Hcp, flat_map_app.
Qed.

End Utf8_more.

Section FileOperations_more.
Import Fs FileOperations MoreSpec.

Variable dirname : string -> string.
Variable encode_other : FileEncoding -> text -> bytes.
Variable decode_other : FileEncoding -> bytes -> text.

Lemma mkdir_recursive_keeps depth : forall d (fs fs' : gmap string node),
  mkdir_recursive dirname depth d fs = inr fs' ->
  forall q n, fs !! q = Some n -> fs' !! q = Some n.
Proof.
  induction depth as [|k IH]; intros d fs fs' Hrun q n Hq; simpl in Hrun;
    destruct (fs !! d) as [[b|]|] eqn:Hd; try discriminate;
    try (injection Hrun as <-; done).
  assert (q <> d) by congruence.
  destruct (String.eqb (dirname d) d).
  - injection Hrun as <-. by rewrite lookup_insert_ne.
  - unfold bind in Hrun.
    destruct (mkdir_recursive dirname k (dirname d) fs) as [e|fs1] eqn:Hrec;
      [discriminate|].
    injection Hrun as <-. rewrite lookup_insert_ne by done.
    by apply (IH _ _ _ Hrec).
Qed.

Lemma mkdir_recursive_makes depth d (fs fs' : gmap string node) :
  mkdir_recursive dirname depth d fs = inr fs' -> fs' !! d = Some Directory.
Proof.
  destruct depth as [|k]; simpl;
    destruct (fs !! d) as [[b|]|] eqn:Hd; try discriminate;
    try (intros [= <-]; done).
  destruct (String.eqb (dirname d) d).
  - intros [= <-]. by rewrite lookup_insert_eq.
  - unfold bind.
    destruct (mkdir_recursive dirname k (dirname d) fs); [discriminate|].
    intros [= <-]. by rewrite lookup_insert_eq.
Qed.

(** The steps of a successful write. *)
Lemma writeFile_success args (fs : gmap string node) :
  success (writeFile dirname encode_other args fs).1 = true ->
  exists fs1 fs2 : gmap string node,
    write_path args <> ""
    /\ (if default false (write_createDirs args)
        then mkdir_p dirname (dirname (write_path args)) fs else ret fs)
       = inr fs1
    /\ Fs.writeFile dirname (write_path args)
         (buffer_from encode_other (default utf8 (write_encoding args))
            (write_content args))
         (if default false (write_append args) then flag_a else flag_w) fs1
       = inr fs2
    /\ (writeFile dirname encode_other args fs).2 = fs2
    /\ data (writeFile dirname encode_other args fs).1
       = Some {| written_size :=
                   length (buffer_from encode_other
                             (default utf8 (write_encoding args))
                             (write_content args));
                 written_encoding := default utf8 (write_encoding args);
                 created := negb (default false (write_append args)) |}.
Proof.
  remember (writeFile dirname encode_other args fs) as w eqn:Ew.
  unfold writeFile, WriteFileSchema in Ew.
  destruct (String.eqb_spec (write_path args) "") as [|Hne];
    [subst w; simpl; discriminate|].
  unfold ret at 1 in Ew.
  destruct (if default false (write_createDirs args) then _ else _)
    as [e|fs1] eqn:Hmk; [subst w; simpl; discriminate|].
  destruct (Fs.writeFile _ _ _ _ fs1) as [e|fs2] eqn:Hw;
    [subst w; simpl; discriminate|].
  intros _. exists fs1, fs2. subst w. simpl. done.
Qed.


(** X2: a plain write of [A], then an appending write of [B], then a read,
    all under the default encoding, return [A ++ B]. *)
Theorem write_append_read
    (p : string) (A B : text) (dirs1 dirs2 : option bool)
    (fs : gmap string node) :
  let w1 := writeFile dirname encode_other
              {| write_path := p; write_content := A; write_encoding := None;
                 write_createDirs := dirs1; write_append := None |} fs in
  let w2 := writeFile dirname encode_other
              {| write_path := p; write_content := B; write_encoding := None;
                 write_createDirs := dirs2; write_append := Some true |}
              w1.2 in
  let r := readFile encode_other decode_other
             {| read_path := p; read_encoding := None; read_offset := None;
                read_limit := None |} w2.2 in
  Utf8.well_formed A = true -> Utf8.well_formed B = true ->
  success w1.1 = true -> success w2.1 = true ->
  success r = true /\ content <$> data r = Some (StringContent (A ++ B)).
Proof.
  intros w1 w2 r HA HB Hok1 Hok2.
  destruct (writeFile_stores dirname encode_other
              {| write_path := p; write_content := A; write_encoding := None;
                 write_createDirs := dirs1; write_append := None |}
              fs eq_refl Hok1) as [Hstored Hne].
  fold w1 in Hstored. simpl in Hstored, Hne.
  destruct (writeFile_success _ _ Hok2) as (fs1 & fs2 & _ & Hmk & Hw & Hfs2 & _).
  fold w2 in Hfs2. simpl in Hmk, Hw.
  assert (Hfs1 : fs1 !! p = Some (File (Utf8.encode A))).
  { destruct (default false dirs2).
    - by apply (mkdir_recursive_keeps _ _ _ _ Hmk).
    - by injection Hmk as <-. }
  unfold Fs.writeFile in Hw. rewrite Hfs1 in Hw. injection Hw as Hw.
  subst r. unfold readFile, ReadFileSchema. simpl.
  rewrite (eqb_nonempty p Hne). simpl.
  unfold access, Fs.readFile. rewrite Hfs2, <- Hw, lookup_insert_eq. simpl.
  by rewrite decode_encode_app.
Qed.



(** X4: deleting a regular file removes that entry and no other; reading
    the path then fails, deleting it again without [force] reports that
    the path is not found, and with [force] reports success. *)
Theorem deleteFile_removes_file
    (p : string) (recursive force : option bool) (fs : gmap string node)
    (b : bytes) :
  p <> "" -> fs !! p = Some (File b) ->
  let d := deleteFile {| delete_path := p; delete_recursive := recursive;
                         delete_force := force |} fs in
  d = (mkResult true "File deleted successfully" (Some p)
         (Some {| type := deleted_file; deleted_size := length b |}) None,
       delete p fs)
  /\ success (readFile encode_other decode_other
                {| read_path := p; read_encoding := None;
                   read_offset := None; read_limit := None |} d.2) = false
  /\ error (deleteFile {| delete_path := p; delete_recursive := recursive;
                          delete_force := None |} d.2).1
     = Some "Path not found"%string
  /\ success (deleteFile {| delete_path := p; delete_recursive := recursive;
                            delete_force := Some true |} d.2).1 = true.
Proof.
  intros Hp Hfile d.
  assert (Hd : d = (mkResult true "File deleted successfully" (Some p)
                      (Some {| type := deleted_file;
                               deleted_size := length b |}) None,
                    delete p fs)).
  { subst d. unfold deleteFile, DeleteFileSchema. simpl.
    rewrite (eqb_nonempty p Hp). unfold access, stat, unlink. simpl.
    rewrite Hfile. reflexivity. }
  split; [exact Hd|]. rewrite Hd. simpl.
  unfold readFile, ReadFileSchema, deleteFile, DeleteFileSchema. simpl.
  rewrite (eqb_nonempty p Hp). unfold access. simpl.
  rewrite lookup_delete_eq. done.
Qed.


(** X6: under an encoding other than utf8, two ranged reads of
    neighbouring ranges return buffers whose concatenation is what one read
    of the joined range returns; a ranged read returns at most [limit]
    bytes, and none from an offset at or past the end of the file. *)
Theorem ranged_reads_compose
    (p : string) (enc : FileEncoding) (a n m : nat)
    (fs : gmap string node) (b : bytes) :
  p <> "" -> enc <> utf8 -> fs !! p = Some (File b) ->
  1 <= n -> 1 <= m ->
  let range off len :=
    content <$> data (readFile encode_other decode_other
                        {| read_path := p; read_encoding := Some enc;
                           read_offset := Some (Z.of_nat off);
                           read_limit := Some (Z.of_nat len) |} fs) in
  exists s1 s2 : bytes,
    range a n = Some (BufferContent s1)
    /\ range (a + n) m = Some (BufferContent s2)
    /\ range a (n + m) = Some (BufferContent (s1 ++ s2))
    /\ length s1 <= n
    /\ (length b <= a -> s1 = []).
Proof.
  intros Hp Henc Hfile Hn Hm range.
  assert (Hrange : forall off len, 1 <= len ->
            range off len = Some (BufferContent (take len (drop off b)))).
  { intros off len Hlen. subst range. cbv beta.
    unfold readFile, ReadFileSchema. simpl.
    rewrite (eqb_nonempty p Hp).
    destruct (Z.leb_spec 0 (Z.of_nat off)); [|lia].
    destruct (Z.leb_spec 1 (Z.of_nat len)); [|lia]. simpl.
    unfold access, Fs.readFile. rewrite Hfile. simpl.
    destruct (Z.eqb_spec (Z.of_nat len) 0); [lia|]. simpl.
    destruct (decide (enc = utf8)); [done|]. simpl.
    unfold buffer_slice, Js.slice. rewrite Nat2Z.id.
    by replace (Z.to_nat (Z.of_nat off + Z.of_nat len) - off) with len by lia. }
  exists (take n (drop a b)), (take m (drop (a + n) b)).
  rewrite !Hrange by lia. split; [done|]. split; [done|]. split.
  - do 2 f_equal. rewrite <- take_take_drop. by rewrite drop_drop.
  - split.
    + rewrite length_take. lia.
    + intros Hlen. rewrite drop_ge by done. by destruct n.
Qed.

End FileOperations_more.

Section FileOperations_more_witnesses.
Import Fs FileOperations MoreSpec MoreExamples.
Local Open Scope Z_scope.


Lemma write_append_read_witness :
  content <$> data
    (readFile raw raw
       {| read_path := "/a.txt"; read_encoding := None; read_offset := None;
          read_limit := None |}
       (writeFile flat raw
          {| write_path := "/a.txt"; write_content := [233; 10];
             write_encoding := None; write_createDirs := None;
             write_append := Some true |}
          (writeFile flat raw
             {| write_path := "/a.txt"; write_content := [104];
                write_encoding := None; write_createDirs := None;
                write_append := None |} root_only).2).2)
  = Some (StringContent ([104] ++ [233; 10])).
Proof.
  apply (write_append_read flat raw raw "/a.txt" [104] [233; 10] None None
           root_only);
    vm_compute; reflexivity.
Defined.

Lemma deleteFile_removes_file_witness :
  deleteFile {| delete_path := "/e"; delete_recursive := None;
                delete_force := None |} small_tree
  = (mkResult true "File deleted successfully" (Some "/e"%string)
       (Some {| type := deleted_file; deleted_size := 1 |}) None,
     delete "/e"%string small_tree).
Proof.
  apply (deleteFile_removes_file raw raw "/e" None None small_tree [2]);
    [discriminate | reflexivity].
Defined.


Lemma ranged_reads_compose_witness :
  exists s1 s2 : bytes,
    content <$> data (readFile raw raw
                        {| read_path := "/a.bin"; read_encoding := Some latin1;
                           read_offset := Some 1; read_limit := Some 2 |}
                        five_bytes) = Some (BufferContent s1)
    /\ content <$> data (readFile raw raw
                           {| read_path := "/a.bin";
                              read_encoding := Some latin1;
                              read_offset := Some 3; read_limit := Some 1 |}
                           five_bytes) = Some (BufferContent s2)
    /\ s1 ++ s2 = [201; 202; 203].
Proof.
  destruct (ranged_reads_compose raw raw "/a.bin" latin1 1 2 1 five_bytes
              [200; 201; 202; 203; 204])
    as (s1 & s2 & H1 & H2 & H3 & _);
    [discriminate | discriminate | reflexivity | lia | lia |].
  exists s1, s2. split; [exact H1|]. split; [exact H2|].
  assert (E : Some (BufferContent [201; 202; 203])
              = Some (BufferContent (s1 ++ s2)))
    by (rewrite <- H3; vm_compute; reflexivity).
  congruence.
Defined.

End FileOperations_more_witnesses.

(** ** More on the watcher registry *)
Section Watch_more.
Import Fs AdvancedOperations RegistrySpec.

Variable close_error : nat -> option string.

(** What [stopWatching] does to the registry. *)
Lemma stopWatching_registry p reg :
  (stopWatching close_error p reg).2
  = match watchers reg !! p with
    | Some w =>
        match close_error w with
        | None => {| watchers := delete p (watchers reg);
                     running := running reg ∖ {[w]};
                     listening := listening reg;
                     created_with := created_with reg;
                     next_watcher := next_watcher reg |}
        | Some _ => reg
        end
    | None => reg
    end.
Proof.
  unfold stopWatching, close. destruct (watchers reg !! p); [|done].
  by destruct (close_error _).
Qed.

Lemma stopWatching_ok p reg :
  registry_ok reg -> registry_ok (stopWatching close_error p reg).2.
Proof.
  intros (Hrun & Hnext & Hinj). rewrite stopWatching_registry.
  destruct (watchers reg !! p) as [w|] eqn:Hp; [|done].
  destruct (close_error w); [done|].
  split; [|split]; simpl.
  - intros q v Hq. apply lookup_delete_Some in Hq as [Hne Hq].
    apply elem_of_difference. split; [by apply (Hrun q)|].
    intros Hv. apply elem_of_singleton in Hv as ->.
    apply Hne. by apply (Hinj p q w).
  - intros v Hv. apply elem_of_difference in Hv as [Hv _]. by apply Hnext.
  - intros q1 q2 v H1 H2. apply lookup_delete_Some in H1 as [_ H1].
    apply lookup_delete_Some in H2 as [_ H2]. by apply (Hinj q1 q2 v).
Qed.

Lemma start_watcher_ok p o reg :
  registry_ok reg -> registry_ok (start_watcher p o reg).2.
Proof.
  intros (Hrun & Hnext & Hinj). unfold start_watcher.
  split; [|split]; simpl.
  - intros q v Hq. apply lookup_insert_Some in Hq as [[_ <-]|[_ Hq]].
    + apply elem_of_union. left. by apply elem_of_singleton.
    + apply elem_of_union. right. by apply (Hrun q).
  - intros v Hv. apply elem_of_union in Hv as [Hv|Hv].
    + apply elem_of_singleton in Hv as ->. lia.
    + apply Hnext in Hv. lia.
  - intros q1 q2 v H1 H2.
    apply lookup_insert_Some in H1 as [[E1 <-]|[N1 H1]];
      apply lookup_insert_Some in H2 as [[E2 E]|[N2 H2]].
    + congruence.
    + apply Hrun, Hnext in H2. lia.
    + subst v. apply Hrun, Hnext in H1. lia.
    + by apply (Hinj q1 q2 v).
Qed.

(** What a successful [watchFile] does to the registry. *)
Lemma watchFile_registry args fs reg :
  success (watchFile close_error args fs reg).1 = true ->
  (watchFile close_error args fs reg).2
  = (start_watcher (watch_path args)
       {| ignored := watch_ignored args;
          options_ignoreInitial := default true (watch_ignoreInitial args);
          depth := if default false (watch_recursive args)
                   then None else Some 0 |}
       (stopWatching close_error (watch_path args) reg).2).2.
Proof.
  intros Hok. destruct (watchFile_success close_error _ _ _ Hok) as [Hp Hfs].
  destruct (watchers reg !! watch_path args) as [old|] eqn:Hold.
  - unfold watchFile, WatchFileSchema. rewrite (eqb_nonempty _ Hp).
    unfold ret, access. destruct Hfs as [n ->]. simpl.
    rewrite Hold. by rewrite bool_decide_eq_true_2 by eauto.
  - rewrite watchFile_fresh by done. rewrite stopWatching_registry, Hold.
    reflexivity.
Qed.

Lemma watchFile_failed args fs reg :
  success (watchFile close_error args fs reg).1 = false ->
  (watchFile close_error args fs reg).2 = reg.
Proof.
  unfold watchFile, WatchFileSchema.
  destruct (String.eqb (watch_path args) ""); [done|].
  unfold ret. destruct (access (watch_path args) fs); [done|].
  simpl. discriminate.
Qed.

Lemma emit_ok w e reg : registry_ok reg -> registry_ok (emit w e reg).
Proof. unfold emit. by case_bool_decide. Qed.

(** The fold of [cleanup] closes what it can and touches nothing else. *)
Lemma cleanup_fold reg :
  let closed :=
    map_fold (fun (_ : string) w r =>
                match close close_error w r with inr r' => r' | inl _ => r end)
      reg (watchers reg) in
  next_watcher closed = next_watcher reg
  /\ running closed ⊆ running reg
  /\ (forall p w, watchers reg !! p = Some w -> close_error w = None ->
        w ∉ running closed).
Proof.
  cbv zeta.
  generalize (watchers reg).
  apply (map_fold_weak_ind
           (fun (r : registry) (m : gmap string nat) =>
              next_watcher r = next_watcher reg
              /\ running r ⊆ running reg
              /\ forall p w, m !! p = Some w -> close_error w = None ->
                   w ∉ running r)).
  - split; [done|]. split; [done|]. intros p w Hp. by rewrite lookup_empty in Hp.
  - intros i x m r Hi (Hn & Hsub & Hclosed). unfold close.
    destruct (close_error x) eqn:Hx; simpl.
    + split; [done|]. split; [done|]. intros p w Hp Hw.
      apply lookup_insert_Some in Hp as [[_ <-]|[_ Hp]]; [congruence|].
      by apply (Hclosed p).
    + split; [done|]. split; [set_solver|]. intros p w Hp Hw.
      apply lookup_insert_Some in Hp as [[_ <-]|[_ Hp]]; [set_solver|].
      specialize (Hclosed p w Hp Hw). set_solver.
Qed.

Lemma watchFile_ok args fs reg :
  registry_ok reg -> registry_ok (watchFile close_error args fs reg).2.
Proof.
  intros Hok.
  destruct (success (watchFile close_error args fs reg).1) eqn:Hs.
  - rewrite watchFile_registry by done.
    by apply start_watcher_ok, stopWatching_ok.
  - by rewrite watchFile_failed.
Qed.

(** X7: the registry stays well formed: from a registry in which every
    registered watcher runs, watchers are numbered below [next_watcher] and
    no watcher serves two paths, [watchFile], [stopWatching], an event and
    [cleanup] lead to such a registry again, whatever they return. *)
Theorem registry_stays_ok
    (reg : registry) (args : WatchFileArgs) (fs : gmap string node)
    (p : string) (w : nat) (e : FileWatchEvent) :
  registry_ok reg ->
  registry_ok (watchFile close_error args fs reg).2
  /\ registry_ok (stopWatching close_error p reg).2
  /\ registry_ok (emit w e reg)
  /\ registry_ok (cleanup close_error reg).
Proof.
  intros Hok. split; [|split; [|split]].
  - by apply watchFile_ok.
  - by apply stopWatching_ok.
  - by apply emit_ok.
  - destruct (cleanup_fold reg) as (Hn & Hsub & _).
    destruct Hok as (Hrun & Hnext & Hinj). unfold cleanup.
    split; [|split]; simpl.
    + intros q v Hq. by rewrite lookup_empty in Hq.
    + intros v Hv. rewrite Hn. apply Hnext. by apply Hsub.
    + intros q1 q2 v Hq. by rewrite lookup_empty in Hq.
Qed.

(** X8: [cleanup] empties the registry, stops every registered watcher
    that chokidar closes without error, starts none, and leaves
    [stopWatching] with nothing to find. *)
Theorem cleanup_closes_all (reg : registry) (p : string) :
  let cleaned := cleanup close_error reg in
  watchers cleaned = ∅
  /\ running cleaned ⊆ running reg
  /\ (forall q w, watchers reg !! q = Some w -> close_error w = None ->
        w ∉ running cleaned)
  /\ error (stopWatching close_error p cleaned).1
     = Some "Watcher not found"%string.
Proof.
  destruct (cleanup_fold reg) as (Hn & Hsub & Hclosed).
  unfold cleanup. simpl. split; [done|]. split; [done|]. split; [done|].
  unfold stopWatching. simpl. by rewrite lookup_empty.
Qed.

(** X9: the registry is keyed by the path string as given: successful
    calls of [watchFile] on two different strings leave two registrations,
    each with its own running watcher, and stopping one leaves the other
    registered and running. *)
Theorem watch_two_paths
    (args1 args2 : WatchFileArgs) (fs1 fs2 : gmap string node)
    (reg : registry) :
  let p := watch_path args1 in
  let q := watch_path args2 in
  let first := next_watcher reg in
  let second := S (next_watcher reg) in
  let w1 := watchFile close_error args1 fs1 reg in
  let w2 := watchFile close_error args2 fs2 w1.2 in
  let s := stopWatching close_error p w2.2 in
  registry_ok reg -> p <> q ->
  success w1.1 = true -> success w2.1 = true ->
  close_error first = None ->
  watchers w2.2 !! p = Some first /\ watchers w2.2 !! q = Some second
  /\ (first ∈ running w2.2) /\ (second ∈ running w2.2)
  /\ success s.1 = true
  /\ watchers s.2 !! p = None
  /\ watchers s.2 !! q = Some second /\ (second ∈ running s.2).
Proof.
  intros p q first second w1 w2 s Hok Hpq Hok1 Hok2 Hclose.
  assert (Hreg1 : registry_ok w1.2) by (by apply watchFile_ok).
  assert (H1 : watchers w1.2 !! p = Some first /\ next_watcher w1.2 = second).
  { subst w1. rewrite watchFile_registry by done. unfold start_watcher.
    simpl. rewrite lookup_insert_eq.
    rewrite stopWatching_registry. fold p.
    destruct (watchers reg !! p) as [n|]; [destruct (close_error n)|];
      split; reflexivity. }
  destruct H1 as [Hp1 Hn1].
  assert (H2 : watchers w2.2 !! q = Some second
               /\ watchers w2.2 !! p = Some first
               /\ first ∈ running w2.2 /\ second ∈ running w2.2).
  { subst w2. rewrite watchFile_registry by done. unfold start_watcher.
    simpl. fold q. rewrite stopWatching_registry.
    destruct Hreg1 as (Hrun1 & Hnext1 & Hinj1).
    pose proof (Hrun1 p first Hp1) as Hfirst.
    destruct (watchers w1.2 !! q) as [old|] eqn:Hq; [|].
    - assert (old <> first).
      { intros ->. apply Hpq. by apply (Hinj1 p q first). }
      destruct (close_error old); simpl; rewrite lookup_insert_eq, Hn1;
        rewrite lookup_insert_ne by done;
        rewrite ?lookup_delete_ne by done;
        repeat split; try done; set_solver.
    - simpl. rewrite lookup_insert_eq, Hn1.
      rewrite lookup_insert_ne by done.
      repeat split; try done; set_solver. }
  destruct H2 as (Hq2 & Hp2 & Hf2 & Hs2).
  split; [done|]. split; [done|]. split; [done|]. split; [done|].
  subst s. unfold stopWatching, close. rewrite Hp2.
  rewrite Hclose. simpl. rewrite lookup_delete_eq.
  rewrite lookup_delete_ne by done.
  repeat split; try done.
  apply elem_of_difference. split; [done|].
  intros Hin. apply elem_of_singleton in Hin. subst first second. lia.
Qed.

(** X10: when chokidar fails to close the watcher already registered for
    a path, [stopWatching] fails and keeps the registration, while
    [watchFile] on that path still succeeds and registers a new watcher:
    the old watcher keeps running and no path leads to it any more. *)
Theorem failed_close_leaks_watcher
    (args : WatchFileArgs) (fs : gmap string node) (reg : registry)
    (old : nat) (reason : string) :
  let p := watch_path args in
  let w := watchFile close_error args fs reg in
  let s := stopWatching close_error p reg in
  registry_ok reg ->
  p <> "" -> is_Some (fs !! p) ->
  watchers reg !! p = Some old -> close_error old = Some reason ->
  (success s.1 = false
   /\ error s.1 = Some reason /\ s.2 = reg)
  /\ success w.1 = true
  /\ watchers w.2 !! p = Some (next_watcher reg)
  /\ (old ∈ running w.2)
  /\ (forall q, watchers w.2 !! q <> Some old).
Proof.
  intros p w s (Hrun & Hnext & Hinj) Hp Hfs Hold Hclose.
  split.
  { subst s. unfold stopWatching, close. rewrite Hold, Hclose. done. }
  assert (Hw : w = (watchFile close_error args fs reg)) by done.
  unfold watchFile, WatchFileSchema in Hw. fold p in Hw.
  rewrite (eqb_nonempty _ Hp) in Hw. unfold ret, access in Hw.
  destruct Hfs as [n Hn]. rewrite Hn in Hw. simpl in Hw.
  rewrite Hold in Hw. rewrite bool_decide_eq_true_2 in Hw by eauto.
  unfold stopWatching, close in Hw. rewrite Hold, Hclose in Hw.
  simpl in Hw. rewrite Hw. simpl. rewrite lookup_insert_eq.
  split; [done|]. split; [done|]. split.
  - apply elem_of_union. right. by apply (Hrun p).
  - intros q Hq. apply lookup_insert_Some in Hq as [[_ E]|[Hne Hq]].
    + pose proof (Hnext old (Hrun p old Hold)). lia.
    + apply Hne. by apply (Hinj p q old).
Qed.

(** X11: a call that fails changes nothing: after a failed [watchFile]
    or a failed [stopWatching] the registry is what it was. *)
Theorem failed_calls_keep_registry
    (args : WatchFileArgs) (fs : gmap string node) (p : string)
    (reg : registry) :
  (success (watchFile close_error args fs reg).1 = false ->
   (watchFile close_error args fs reg).2 = reg
   /\ is_Some (error (watchFile close_error args fs reg).1))
  /\ (success (stopWatching close_error p reg).1 = false ->
      (stopWatching close_error p reg).2 = reg
      /\ is_Some (error (stopWatching close_error p reg).1)).
Proof.
  split.
  - intros Hfail. split; [by apply watchFile_failed|].
    revert Hfail. unfold watchFile, WatchFileSchema.
    destruct (String.eqb (watch_path args) ""); [by eexists|].
    unfold ret. destruct (access (watch_path args) fs); [by eexists|].
    simpl. discriminate.
  - unfold stopWatching, close.
    destruct (watchers reg !! p); [|by eexists].
    destruct (close_error _); [by eexists | simpl; discriminate].
Qed.

End Watch_more.

Section Watch_more_witnesses.
Import Fs AdvancedOperations RegistrySpec Examples MoreExamples.

Lemma no_watchers_ok : registry_ok no_watchers.
Proof.
  split; [|split]; simpl.
  - intros p w H. by rewrite lookup_empty in H.
  - intros w H. by apply not_elem_of_empty in H.
  - intros p q w H. by rewrite lookup_empty in H.
Qed.

Lemma registry_stays_ok_witness :
  registry_ok (watchFile all_close watch_w watched_files no_watchers).2.
Proof.
  apply (registry_stays_ok all_close no_watchers watch_w watched_files "/w" 0
           (changed 0) no_watchers_ok).
Defined.

Lemma watch_two_paths_witness :
  watchers (watchFile all_close watch_dot two_spellings
              (watchFile all_close watch_w two_spellings no_watchers).2).2
    !! "/w"%string = Some 0
  /\ watchers (watchFile all_close watch_dot two_spellings
                 (watchFile all_close watch_w two_spellings no_watchers).2).2
       !! "/./w"%string = Some 1.
Proof.
  destruct (watch_two_paths all_close watch_w watch_dot two_spellings
              two_spellings no_watchers no_watchers_ok)
    as (H1 & H2 & _); try reflexivity; [discriminate|].
  split; [exact H1 | exact H2].
Defined.

Lemma failed_close_leaks_watcher_witness :
  0 ∈ running (watchFile never_close watch_w watched_files
                 (watchFile never_close watch_w watched_files
                    no_watchers).2).2.
Proof.
  destruct (failed_close_leaks_watcher never_close watch_w watched_files
              (watchFile never_close watch_w watched_files no_watchers).2
              0 "EBUSY") as (_ & _ & _ & Hold & _).
  - apply watchFile_ok, no_watchers_ok.
  - discriminate.
  - by eexists.
  - reflexivity.
  - reflexivity.
  - exact Hold.
Defined.

End Watch_more_witnesses.

(** ** More on the cache and the resource handler *)
Section Server_more.
Import Fs Server.
Local Open Scope Z_scope.

Variable V : Type.
Variable fresh : computed_kind -> string -> world -> V.
Variable decodeURIComponent : string -> throws string.
Variable JSON_stringify : string -> string.

Local Abbreviation key_of r :=
  (getCacheKey JSON_stringify (type V r) (param V r) (arg V r)).
Local Abbreviation read :=
  (readResource V fresh decodeURIComponent JSON_stringify).

(** X12: what [setCachedData] stores, [getCachedData] returns for as long
    as [now - timestamp <= ttl], leaving the cache as it is; after that it
    returns nothing and the entry is gone; other keys are not affected; and
    storing again under the key replaces what was stored. *)
Theorem cache_set_then_get
    (key : string) (d : resource_data V) (t now later : Z)
    (cache : gmap string (cache_entry V)) :
  let stored := setCachedData V key d t now cache in
  (later - now <= t -> getCachedData V key later stored = (Some d, stored))
  /\ (later - now > t ->
      getCachedData V key later stored = (None, delete key cache))
  /\ (forall k, k <> key ->
        (getCachedData V k later stored).1 = (getCachedData V k later cache).1)
  /\ (forall d' t' now',
        setCachedData V key d' t' now' stored
        = setCachedData V key d' t' now' cache).
Proof.
  intros stored. subst stored. unfold getCachedData, setCachedData.
  split; [|split; [|split]].
  - intros H. rewrite lookup_insert_eq. simpl.
    by destruct (Z.gtb_spec (later - now) t); [lia|].
  - intros H. rewrite lookup_insert_eq. simpl.
    destruct (Z.gtb_spec (later - now) t); [|lia].
    by rewrite delete_insert_eq.
  - intros k Hk. rewrite lookup_insert_ne by done.
    destruct (cache !! k) as [entry|]; [|done].
    by destruct (later - timestamp V entry >? ttl V entry).
  - intros d' t' now'. by rewrite insert_insert_eq.
Qed.

(** The entry of a request once it was computed from [w] and stored at
    [stored]. *)
Lemma serve_hits (r : request V) (w1 : world) (l1 : Z)
    (hits : list (Z * Z * world)) :
  forall (cache : gmap string (cache_entry V)) (flag : bool),
    cache !! key_of r
    = Some {| data := {| body := compute V r w1; cached := flag;
                         data_timestamp := l1 |};
              timestamp := l1; ttl := request_ttl V r |} ->
    Forall (fun h : Z * Z * world => h.1.1 - l1 <= request_ttl V r) hits ->
    exists flag',
      foldl (fun c (h : Z * Z * world) =>
               (serve V JSON_stringify r h.1.1 h.1.2 h.2 c).2) cache hits
      !! key_of r
      = Some {| data := {| body := compute V r w1; cached := flag';
                           data_timestamp := l1 |};
                timestamp := l1; ttl := request_ttl V r |}.
Proof.
  induction hits as [|[[t l] w] hits IH]; intros cache flag Hentry Hall.
  - by exists flag.
  - apply Forall_cons in Hall as [Hh Hall]. simpl in Hh |- *.
    rewrite (serve_hit V JSON_stringify r t l w cache _ l1 Hentry Hh).
    simpl. apply (IH _ true); [|done]. by rewrite lookup_insert_eq.
Qed.

(** X13: the expiry of an entry does not slide: however many fetches hit
    the entry within the window, it keeps the timestamp and the content of
    the fetch that stored it, and the first fetch later than the TTL after
    that timestamp recomputes. *)
Theorem hits_do_not_extend_lifetime
    (uri : string) (r : request V) (cache : gmap string (cache_entry V))
    (t1 l1 t3 l3 : Z) (w1 w3 : world) (hits : list (Z * Z * world)) :
  route V fresh decodeURIComponent uri = Some (inr r) ->
  (getCachedData V (key_of r) t1 cache).1 = None ->
  Forall (fun h : Z * Z * world => h.1.1 - l1 <= request_ttl V r) hits ->
  t3 - l1 > request_ttl V r ->
  let stored := (read uri t1 l1 w1 cache).2 in
  let after :=
    foldl (fun c (h : Z * Z * world) => (read uri h.1.1 h.1.2 h.2 c).2)
      stored hits in
  (exists flag,
     after !! key_of r
     = Some {| data := {| body := compute V r w1; cached := flag;
                          data_timestamp := l1 |};
               timestamp := l1; ttl := request_ttl V r |})
  /\ (read uri t3 l3 w3 after).1
     = inr {| body := compute V r w3; cached := false; data_timestamp := l3 |}.
Proof.
  intros Hroute Hmiss Hall Hout stored after.
  assert (Hread : forall t l w c,
            (read uri t l w c).2 = (serve V JSON_stringify r t l w c).2).
  { intros t l w c. unfold readResource. rewrite Hroute.
    by destruct (serve V JSON_stringify r t l w c). }
  assert (Hfold : after
            = foldl (fun c (h : Z * Z * world) =>
                       (serve V JSON_stringify r h.1.1 h.1.2 h.2 c).2)
                stored hits).
  { subst after. generalize stored. clear -Hread.
    induction hits as [|h hits IH]; intros c; [done|].
    simpl. by rewrite Hread, IH. }
  destruct (serve_miss V JSON_stringify r t1 l1 w1 cache Hmiss) as [c1 E1].
  assert (Hstored : stored !! key_of r
            = Some {| data := {| body := compute V r w1; cached := false;
                                 data_timestamp := l1 |};
                      timestamp := l1; ttl := request_ttl V r |}).
  { subst stored. rewrite Hread, E1. simpl. by rewrite lookup_insert_eq. }
  destruct (serve_hits r w1 l1 hits stored false Hstored Hall) as [flag Hflag].
  rewrite <- Hfold in Hflag. split; [by exists flag|].
  unfold readResource. rewrite Hroute. unfold serve, getCachedData.
  rewrite Hflag. simpl.
  by destruct (Z.gtb_spec (t3 - l1) (request_ttl V r)); [|lia].
Qed.

Lemma strip_known prefix uri rest :
  String.prefix "file://" prefix = true ->
  strip prefix uri = Some rest -> String.prefix "file://" uri = true.
Proof.
  intros Hp Hs. apply strip_Some in Hs. subst uri.
  revert prefix Hp. generalize "file://"%string as f.
  induction f as [|a f IH]; intros q Hq; [by destruct (q +:+ rest)|].
  destruct q as [|b q]; [discriminate|]. simpl in Hq |- *.
  destruct (Ascii.ascii_dec a b) as [_|_]; [|discriminate]. by apply IH.
Qed.

(** X14: a URI that does not start with [file://] is answered with the
    error [Unknown resource], and whenever a read fails, on an unknown URI
    or a malformed escape, the cache is what it was. *)
Theorem failed_read_keeps_cache
    (uri : string) (now later : Z) (w : world)
    (cache : gmap string (cache_entry V)) :
  (String.prefix "file://" uri = false ->
   read uri now later w cache
   = (inl (Error ("Failed to read resource " +:+ uri
                    +:+ ": Unknown resource: " +:+ uri)), cache))
  /\ (forall e, (read uri now later w cache).1 = inl e ->
        (read uri now later w cache).2 = cache).
Proof.
  split.
  - intros Hno. unfold readResource, route.
    repeat match goal with
    | |- context [strip ?p uri] =>
        destruct (strip p uri) as [rest|] eqn:?;
          [ exfalso;
            assert (String.prefix "file://" uri = true)
              by (eapply (strip_known p); [reflexivity | eassumption]);
            congruence | ]
    end.
    reflexivity.
  - intros e. unfold readResource.
    destruct (route V fresh decodeURIComponent uri) as [[e'|r]|]; try done.
    destruct (serve V JSON_stringify r now later w cache). discriminate.
Qed.







End Server_more.

Section Server_more_witnesses.
Import Fs Server Examples.
Local Open Scope Z_scope.

Lemma hits_do_not_extend_lifetime_witness :
  let uri := "file://metadata//w"%string in
  let f1 := readResource nat size_of inr json_string uri 0 5 watching_w ∅ in
  let f2 := readResource nat size_of inr json_string uri 300000 300001
              watching_w f1.2 in
  let f3 := readResource nat size_of inr json_string uri 300006 300007
              watching_w f2.2 in
  f3.1 = inr {| body := Computed nat metadata "/w" 0%nat; cached := false;
                data_timestamp := 300007 |}.
Proof.
  intros uri f1 f2 f3.
  destruct (hits_do_not_extend_lifetime nat size_of inr json_string uri
              {| type := "metadata"; param := "path"; arg := "/w";
                 request_ttl := DEFAULT_CACHE_TTL;
                 compute := fun w => Computed nat metadata "/w"
                                       (size_of metadata "/w" w) |}
              ∅ 0 5 300006 300007 watching_w watching_w
              [(300000, 300001, watching_w)])
    as [_ H]; [reflexivity | reflexivity | | | exact H].
  - repeat constructor. vm_compute. discriminate.
  - reflexivity.
Defined.


End Server_more_witnesses.

(** ** More on compareFiles and searchInFiles *)
Section Compare_more.
Import Fs AdvancedOperations MirrorSpec.

Variable toLowerCase : text -> text.

Lemma compare_at_mirrored (l1 l2 : list text) (i : nat) :
  i < Nat.max (length l1) (length l2) ->
  Forall2 mirrored (compare_at l1 l2 i []) (compare_at l2 l1 i []).
Proof.
  intros Hi. unfold compare_at.
  destruct (decide (Js.index_or_empty l1 i = Js.index_or_empty l2 i)) as [E|E].
  - rewrite (bool_decide_eq_false_2
               (Js.index_or_empty l1 i <> Js.index_or_empty l2 i)) by tauto.
    rewrite (bool_decide_eq_false_2
               (Js.index_or_empty l2 i <> Js.index_or_empty l1 i))
      by (intros H; apply H; congruence).
    constructor.
  - rewrite (bool_decide_eq_true_2
               (Js.index_or_empty l1 i <> Js.index_or_empty l2 i)) by done.
    rewrite (bool_decide_eq_true_2
               (Js.index_or_empty l2 i <> Js.index_or_empty l1 i))
      by congruence.
    unfold mirrored.
    repeat case_bool_decide; try lia; simpl;
      (constructor 2; [|constructor 1]); simpl;
      (split; [reflexivity | split; [reflexivity | congruence]]).
Qed.

Lemma compare_bind_mirrored (l1 l2 : list text) (indices : list nat) :
  Forall (fun i => i < Nat.max (length l1) (length l2)) indices ->
  Forall2 mirrored (indices ≫= (fun j => compare_at l1 l2 j []))
    (indices ≫= (fun j => compare_at l2 l1 j [])).
Proof.
  induction 1 as [|i rest Hi _ IH]; [constructor|].
  rewrite !bind_cons. apply Forall2_app; [by apply compare_at_mirrored | done].
Qed.

Lemma compare_lines_mirrored (l1 l2 : list text) :
  Forall2 mirrored (compare_lines l1 l2) (compare_lines l2 l1).
Proof.
  unfold compare_lines. rewrite !compare_from_bind.
  rewrite (Nat.max_comm (length l2)).
  apply compare_bind_mirrored, Forall_forall. intros i Hi.
  apply elem_of_seq in Hi. lia.
Qed.

(** X16: comparing the two files the other way round reports the same
    lines, as many differences and the same verdict, with [added] and
    [removed] exchanged and their content kept, and with the two file
    summaries exchanged. *)
Theorem compareFiles_swapped
    (f1 f2 : string) (iw ic : option bool) (fs : gmap string node)
    (b1 b2 : bytes) :
  f1 <> ""%string -> f2 <> ""%string ->
  fs !! f1 = Some (File b1) -> fs !! f2 = Some (File b2) ->
  exists d d' : CompareData,
    data (compareFiles toLowerCase
            {| file1 := f1; file2 := f2; ignoreWhitespace := iw;
               ignoreCase := ic |} fs) = Some d
    /\ data (compareFiles toLowerCase
               {| file1 := f2; file2 := f1; ignoreWhitespace := iw;
                  ignoreCase := ic |} fs) = Some d'
    /\ Forall2 mirrored (differences d) (differences d')
    /\ totalDifferences d' = totalDifferences d
    /\ identical d' = identical d
    /\ compared1 d' = compared2 d
    /\ compared2 d' = compared1 d.
Proof.
  intros H1 H2 L1 L2.
  pose proof (compareFiles_readable toLowerCase f1 f2 iw ic fs b1 b2
                H1 H2 L1 L2) as E.
  pose proof (compareFiles_readable toLowerCase f2 f1 iw ic fs b2 b1
                H2 H1 L2 L1) as E'.
  simpl in E, E'. eexists. eexists.
  split; [exact E|]. split; [exact E'|]. simpl.
  pose proof (compare_lines_mirrored
    (Js.split_lines (normalize toLowerCase (default false iw)
                       (default false ic) (Utf8.decode b1)))
    (Js.split_lines (normalize toLowerCase (default false iw)
                       (default false ic) (Utf8.decode b2)))) as M.
  pose proof (Forall2_length _ _ _ M) as Hlen.
  split; [exact M|]. split; [congruence|].
  split; [by rewrite Hlen|]. split; reflexivity.
Qed.

End Compare_more.

Section Search_more.
Import Fs AdvancedOperations.

Variable exec : text -> nat -> option (nat * text).
Variable contextLines : nat.

Lemma search_files_order fuel fs files : forall results results',
  search_files exec contextLines fuel files fs results = Some results' ->
  exists new,
    results' = results ++ new
    /\ sublist (result_path <$> new) files
    /\ Forall (fun r => matches r <> []) new.
Proof.
  induction files as [|p rest IH]; intros results results'; simpl.
  - intros [= <-]. exists []. rewrite app_nil_r. repeat split; constructor.
  - assert (Hskip :
      search_files exec contextLines fuel rest fs results = Some results' ->
      exists new, results' = results ++ new
                  /\ sublist (result_path <$> new) (p :: rest)
                  /\ Forall (fun r => matches r <> []) new).
    { intros H. destruct (IH _ _ H) as (new & -> & Hsub & Hne).
      exists new. repeat split; [|done]. by apply sublist_cons. }
    destruct (fs !! p) as [[buffer|]|] eqn:Hp; try exact Hskip.
    destruct (scan_content _ _ _ _) as [found|] eqn:Hscan; [|discriminate].
    destruct found as [|m found]; [exact Hskip|].
    intros H. destruct (IH _ _ H) as (new & -> & Hsub & Hne).
    eexists (_ :: new). rewrite <- app_assoc. split; [reflexivity|].
    split; [by apply sublist_skip|]. by constructor.
Qed.

Lemma scan_line_more lines i line fuel : forall fuel' k found found',
  fuel <= fuel' ->
  scan_line exec contextLines fuel lines i line k found = Some found' ->
  scan_line exec contextLines fuel' lines i line k found = Some found'.
Proof.
  induction fuel as [|fuel IH]; intros fuel' k found found' Hle;
    simpl; [discriminate|].
  destruct fuel' as [|fuel']; [lia|]. simpl.
  destruct (exec line k) as [[index m]|]; [|done].
  apply IH. lia.
Qed.

Lemma scan_from_more lines fuel fuel' remaining : forall i found found',
  fuel <= fuel' ->
  scan_from exec contextLines fuel lines i remaining found = Some found' ->
  scan_from exec contextLines fuel' lines i remaining found = Some found'.
Proof.
  induction remaining as [|n IH]; intros i found found' Hle; simpl; [done|].
  destruct (lines !! i) as [[|c line]|]; try by apply IH.
  destruct (scan_line exec contextLines fuel lines i (c :: line) 0 found)
    as [f|] eqn:E; [|discriminate].
  rewrite (scan_line_more _ _ _ _ fuel' _ _ _ Hle E). by apply IH.
Qed.

Lemma search_files_more fuel fuel' fs files : forall results results',
  fuel <= fuel' ->
  search_files exec contextLines fuel files fs results = Some results' ->
  search_files exec contextLines fuel' files fs results = Some results'.
Proof.
  induction files as [|p rest IH]; intros results results' Hle; simpl;
    [done|].
  destruct (fs !! p) as [[buffer|]|]; try by apply IH.
  destruct (scan_content exec contextLines fuel (Utf8.decode buffer))
    as [found|] eqn:E; [|discriminate].
  unfold scan_content in E |- *.
  rewrite (scan_from_more _ _ fuel' _ _ _ _ Hle E).
  destruct found; by apply IH.
Qed.

(** X17: the results of a search follow the order in which the files
    were listed, at most one result per listed file; a file without a
    match has no result; and once the scan has returned, its result does
    not depend on how long it was allowed to run. *)
Theorem search_results_follow_files
    (fuel : nat) (files : list string) (fs : gmap string node)
    (results : list SearchResult) :
  search_files exec contextLines fuel files fs [] = Some results ->
  sublist (result_path <$> results) files
  /\ Forall (fun r => matches r <> []) results
  /\ (forall fuel', fuel <= fuel' ->
        search_files exec contextLines fuel' files fs [] = Some results).
Proof.
  intros H. destruct (search_files_order _ _ _ _ _ H) as (new & -> & Hs & Hn).
  simpl in *. repeat split; [done | done |].
  intros fuel' Hle. by apply (search_files_more fuel).
Qed.

End Search_more.

Section Compare_search_witnesses.
Import Fs AdvancedOperations MirrorSpec Examples.

Lemma compareFiles_swapped_witness :
  exists d d' : CompareData,
    data (compareFiles ascii_lower
            {| file1 := "/1"; file2 := "/2"; ignoreWhitespace := None;
               ignoreCase := None |} two_files) = Some d
    /\ data (compareFiles ascii_lower
               {| file1 := "/2"; file2 := "/1"; ignoreWhitespace := None;
                  ignoreCase := None |} two_files) = Some d'
    /\ totalDifferences d' = totalDifferences d.
Proof.
  destruct (compareFiles_swapped ascii_lower "/1" "/2" None None two_files
              (Utf8.encode (Js.of_string "a" ++ Js.LF :: Js.of_string "b"))
              (Utf8.encode (Js.of_string "x" ++ Js.LF :: Js.of_string "a"
                              ++ Js.LF :: Js.of_string "b")))
    as (d & d' & Hd & Hd' & _ & Ht & _);
    [discriminate | discriminate | reflexivity | reflexivity |].
  exists d, d'. split; [exact Hd|]. split; [exact Hd'|exact Ht].
Defined.

Lemma search_results_follow_files_witness :
  search_files (exec_unit 97) 0 10
    ["/t/none.txt"; "/t/fruit.txt"]%string fruit []
  = Some [fruit_result]
  /\ search_files (exec_unit 97) 0 20
       ["/t/none.txt"; "/t/fruit.txt"]%string fruit []
     = Some [fruit_result].
Proof.
  assert (Hrun : search_files (exec_unit 97) 0 10
                   ["/t/none.txt"; "/t/fruit.txt"]%string fruit []
                 = Some [fruit_result])
    by (vm_compute; reflexivity).
  split; [exact Hrun|].
  destruct (search_results_follow_files (exec_unit 97) 0 10
              ["/t/none.txt"; "/t/fruit.txt"]%string fruit [fruit_result]
              Hrun) as (_ & _ & Hmore).
  apply Hmore. repeat constructor.
Defined.

End Compare_search_witnesses.

(** ** getFileInfo and getFilePreview *)
Section Info_more.
Import Fs GetFileInfo.

Variable stat : string -> throws Stats.
Variable lstat : string -> throws Stats.
Variable basename : string -> string.
Variable extname : string -> string.
Variable getMimeType : string -> option string.
Variable octal : nat -> string.

Local Abbreviation info_of :=
  (getFileInfo stat lstat basename extname getMimeType octal).

(** What a successful getFileInfo was computed from. *)
Lemma getFileInfo_success (args : GetFileInfoArgs) (info : FileInfo) :
  data (info_of args) = Some info ->
  info_path args <> ""%string
  /\ exists stats,
       (if default true (followSymlinks args)
        then stat (info_path args) else lstat (info_path args)) = inr stats
       /\ path info = info_path args
       /\ size info = stats_size stats
       /\ isDirectory info = stats_isDirectory stats
       /\ isFile info = stats_isFile stats
       /\ isSymlink info = stats_isSymbolicLink stats
       /\ type info = (if stats_isDirectory stats then directory
                       else if stats_isFile stats then file else symlink).
Proof.
  unfold getFileInfo, GetFileInfoSchema.
  destruct (String.eqb_spec (info_path args) "") as [E|E]; [discriminate|].
  simpl.
  destruct (if default true (followSymlinks args)
            then stat (info_path args) else lstat (info_path args))
    as [e|stats] eqn:Hs; [discriminate|].
  simpl. intros [= <-]. split; [done|]. exists stats. simpl. by repeat split.
Qed.

(** X18: the type getFileInfo reports is never [unknown], and it is
    [symlink] exactly for what is neither a directory nor a regular file;
    since [fs.stat] follows links, with followSymlinks (the default)
    [isSymlink] is false whatever the path is, and [isSymlink] can only be
    true together with the type [symlink]. *)
Theorem getFileInfo_type_and_isSymlink
    (args : GetFileInfoArgs) (info : FileInfo) :
  (forall p s, stat p = inr s -> kind s <> S_IFLNK) ->
  data (info_of args) = Some info ->
  type info <> unknown
  /\ (type info = symlink <-> isDirectory info = false /\ isFile info = false)
  /\ (default true (followSymlinks args) = true -> isSymlink info = false)
  /\ (isSymlink info = true -> type info = symlink).
Proof.
  intros Hfollow H.
  destruct (getFileInfo_success args info H)
    as (_ & stats & Hs & _ & _ & Hd & Hf & Hl & Ht).
  rewrite Ht, Hd, Hf, Hl.
  unfold stats_isDirectory, stats_isFile, stats_isSymbolicLink.
  split; [by repeat case_bool_decide|].
  split; [repeat case_bool_decide; split; try done; by intros []|].
  split.
  - intros Hdefault. rewrite Hdefault in Hs.
    apply bool_decide_eq_false_2. by apply (Hfollow (info_path args)).
  - intros Hlink. apply bool_decide_eq_true_1 in Hlink.
    rewrite !bool_decide_eq_false_2 by congruence. done.
Qed.

End Info_more.

Section Preview_more.
Import Fs GetFileInfo Preview.

Variable stat : string -> throws Stats.
Variable lstat : string -> throws Stats.
Variable basename : string -> string.
Variable extname : string -> string.
Variable getMimeType : string -> option string.
Variable octal : nat -> string.
Variable encode_other : FileEncoding -> text -> bytes.
Variable decode_other : FileEncoding -> bytes -> text.
Variable guessMimeType : string -> string.

Local Abbreviation preview_of :=
  (getFilePreview stat lstat basename extname getMimeType octal
     encode_other decode_other guessMimeType).

Lemma utf16_units_nonempty (cp : Z) : Utf8.utf16_units cp <> [].
Proof. unfold Utf8.utf16_units. by destruct (cp <? 65536)%Z. Qed.

Lemma decode_code_points_nonempty (b0 : Z) (r : bytes) :
  exists cp cps, Utf8.decode_code_points (b0 :: r) = cp :: cps.
Proof.
  cbn [Utf8.decode_code_points].
  repeat match goal with
  | |- exists _ _, (if ?c then _ else _) = _ => destruct c
  | |- exists _ _, match ?l with [] => _ | _ :: _ => _ end = _ => destruct l
  end; by eexists _, _.
Qed.

Lemma decode_nonempty (b : bytes) : b <> [] -> Utf8.decode b <> [].
Proof.
  destruct b as [|b0 r]; [done|]. intros _. unfold Utf8.decode.
  destruct (decode_code_points_nonempty b0 r) as (cp & cps & ->).
  simpl. pose proof (utf16_units_nonempty cp).
  by destruct (Utf8.utf16_units cp).
Qed.

(** X19: the preview of a regular file is the first 500 code units of
    what its first 1024 bytes decode to, marked [utf8]; an empty file,
    though it was read, is reported as not previewable and [binary]. *)
Theorem getFilePreview_regular_file
    (p : string) (fs : gmap string node) (stats : Stats) (b : bytes) :
  p <> ""%string ->
  stat p = inr stats -> kind stats <> S_IFDIR ->
  fs !! p = Some (File b) ->
  let r := preview_of p fs in
  Preview.type r = preview_file
  /\ Preview.size r = Some (stats_size stats)
  /\ Preview.error r = None
  /\ (b = [] ->
      canPreview r = false
      /\ preview r = Js.of_string "Unable to read file content"
      /\ Preview.encoding r = Some "binary"%string)
  /\ (b <> [] ->
      canPreview r = true
      /\ preview r = take 500 (Utf8.decode (take 1024 b))
      /\ Preview.encoding r = Some "utf8"%string).
Proof.
  intros Hp Hstat Hkind Hfile r. subst r.
  unfold getFilePreview, getFileInfo, GetFileInfoSchema. simpl.
  rewrite (eqb_nonempty p Hp). simpl. rewrite Hstat. simpl.
  unfold stats_isDirectory. rewrite bool_decide_eq_false_2 by done.
  unfold FileOperations.readFile, FileOperations.ReadFileSchema. simpl.
  rewrite (eqb_nonempty p Hp). simpl.
  unfold access, Fs.readFile. rewrite Hfile. simpl.
  unfold FileOperations.buffer_slice, Js.slice. simpl.
  destruct b as [|b0 b'].
  - simpl. repeat split; try done.
  - assert (Hne : Utf8.decode (take 1024 (b0 :: b')) <> [])
      by (by apply decode_nonempty).
    rewrite (bool_decide_eq_false_2 _ Hne). simpl.
    repeat split; try done.
Qed.

End Preview_more.

Section Info_preview_witnesses.
Import Fs GetFileInfo Preview Examples.

(** A named pipe: [stat] says neither file nor directory. *)
Lemma getFileInfo_type_and_isSymlink_witness :
  let pipe := {| kind := S_IFIFO; stats_size := 0; mode := 4516;
                 birthtime := 0; mtime := 0; atime := 0 |} in
  exists info,
    data (getFileInfo (fun _ => inr pipe) (fun _ => inr pipe)
            id (fun _ => ""%string) (fun _ => None) pretty
            {| info_path := "/tmp/pipe"; followSymlinks := None |})
    = Some info
    /\ GetFileInfo.type info = symlink
    /\ isSymlink info = false.
Proof.
  intros pipe.
  set (info := {| name := "/tmp/pipe"; path := "/tmp/pipe";
                  GetFileInfo.type := symlink; GetFileInfo.size := 0;
                  isDirectory := false; isFile := false;
                  isSymlink := false; permissions := pretty 4516;
                  createdAt := 0; modifiedAt := 0; accessedAt := 0;
                  extension := None; GetFileInfo.mimeType := None |}).
  destruct (getFileInfo_type_and_isSymlink (fun _ => inr pipe)
              (fun _ => inr pipe) id (fun _ => ""%string) (fun _ => None)
              pretty {| info_path := "/tmp/pipe"; followSymlinks := None |}
              info)
    as (_ & Htype & Hlink & _);
    [intros p s [= <-]; discriminate | reflexivity |].
  exists info. split; [reflexivity|].
  split; [apply Htype; split; reflexivity | exact (Hlink eq_refl)].
Defined.

Lemma getFilePreview_regular_file_witness :
  let regular := {| kind := S_IFREG; stats_size := 15; mode := 420;
                    birthtime := 0; mtime := 0; atime := 0 |} in
  let r := getFilePreview (fun _ => inr regular) (fun _ => inr regular)
             id (fun _ => ".txt"%string) (fun _ => None) pretty
             MoreExamples.raw MoreExamples.raw (fun _ => "text/plain"%string)
             "/t/fruit.txt" fruit in
  canPreview r = true
  /\ preview r = Js.of_string "banana" ++ Js.LF :: Js.of_string "kiwi"
                   ++ Js.LF :: Js.of_string "abc".
Proof.
  intros regular r.
  destruct (getFilePreview_regular_file (fun _ => inr regular)
              (fun _ => inr regular) id (fun _ => ".txt"%string)
              (fun _ => None) pretty MoreExamples.raw MoreExamples.raw
              (fun _ => "text/plain"%string) "/t/fruit.txt" fruit regular
              (Utf8.encode (Js.of_string "banana" ++ Js.LF :: Js.of_string "kiwi"
                              ++ Js.LF :: Js.of_string "abc")))
    as (_ & _ & _ & _ & Hfull);
    [discriminate | reflexivity | discriminate | reflexivity |].
  destruct Hfull as (Hcan & Hpre & _); [vm_compute; discriminate|].
  split; [exact Hcan|].
  etransitivity; [exact Hpre | vm_compute; reflexivity].
Defined.

End Info_preview_witnesses.

(** ** copyFile and moveFile *)
Section CopyMove_more.
Import Fs CopyMove.

Variable dirname : string -> string.
Variable rename_directory :
  string -> string -> gmap string node -> throws (gmap string node).

Lemma Fs_copyFile_success src dest (fs1 fs2 : gmap string node) :
  Fs_copyFile dirname src dest fs1 = inr fs2 ->
  exists b, fs1 !! src = Some (File b) /\ fs2 = <[dest := File b]> fs1.
Proof.
  unfold Fs_copyFile.
  destruct (fs1 !! src) as [[b|]|]; try discriminate.
  destruct (fs1 !! dest) as [[old|]|]; try discriminate.
  - intros [= <-]. by exists b.
  - destruct (fs1 !! dirname dest) as [[?|]|]; try discriminate.
    intros [= <-]. by exists b.
Qed.

(** What a successful copy went through. *)
Lemma copyFile_success args (fs : gmap string node) :
  success (copyFile dirname args fs).1 = true ->
  exists (fs1 : gmap string node) (b : bytes),
    exists_and_kept (copy_destination args)
      (default false (copy_overwrite args)) fs = false
    /\ mkdir_p dirname (dirname (copy_destination args)) fs = inr fs1
    /\ fs1 !! copy_source args = Some (File b)
    /\ copyFile dirname args fs
       = (mkResult true "File copied successfully"
            (Some (copy_destination args))
            (Some {| source := copy_source args;
                     destination := copy_destination args;
                     size := length b |})
            None,
          <[copy_destination args := File b]> fs1).
Proof.
  unfold copyFile, CopyFileSchema.
  destruct (String.eqb (copy_source args) ""); [discriminate|].
  destruct (String.eqb (copy_destination args) ""); [discriminate|].
  cbn [ret].
  destruct (access (copy_source args) fs); [discriminate|].
  destruct (exists_and_kept _ _ fs) eqn:Hkept; [discriminate|].
  destruct (mkdir_p dirname _ fs) as [e|fs1] eqn:Hmk; [discriminate|].
  destruct (Fs_copyFile dirname _ _ fs1) as [e|fs2] eqn:Hcp; [discriminate|].
  destruct (Fs_copyFile_success _ _ _ _ Hcp) as (b & Hsrc & ->).
  assert (Hstat : forall p, is_Some (<[copy_destination args := File b]> fs1 !! p)
                   -> exists n, stat p (<[copy_destination args := File b]> fs1)
                                = inr n
                                /\ <[copy_destination args := File b]> fs1 !! p
                                   = Some n).
  { intros p [n Hn]. exists n. unfold stat. by rewrite Hn. }
  destruct (Hstat (copy_source args)) as (n1 & -> & _).
  { destruct (decide (copy_source args = copy_destination args)) as [->|Hne].
    - rewrite lookup_insert_eq. by eexists.
    - rewrite lookup_insert_ne by done. by eexists. }
  destruct (Hstat (copy_destination args)) as (n2 & -> & Hn2).
  { rewrite lookup_insert_eq. by eexists. }
  rewrite lookup_insert_eq in Hn2. injection Hn2 as <-.
  intros _. exists fs1, b. repeat split; try done.
  by destruct (default true (copy_preserveTimestamps args)).
Qed.

(** X20: after a successful copy the destination holds the content that
    the source had and still has, the size reported is the length of that
    content, every other entry that was there is still there, and the
    destination did not exist before unless overwrite was requested. *)
Theorem copyFile_copies args (fs : gmap string node) :
  success (copyFile dirname args fs).1 = true ->
  exists b : bytes,
    fs !! copy_source args = Some (File b)
    /\ (copyFile dirname args fs).2 !! copy_destination args = Some (File b)
    /\ (copyFile dirname args fs).2 !! copy_source args = Some (File b)
    /\ size <$> data (copyFile dirname args fs).1 = Some (length b)
    /\ (forall q n, q <> copy_destination args -> fs !! q = Some n ->
          (copyFile dirname args fs).2 !! q = Some n)
    /\ (is_Some (fs !! copy_destination args) ->
        copy_overwrite args = Some true).
Proof.
  intros Hok.
  destruct (copyFile_success args fs Hok) as (fs1 & b & Hkept & Hmk & Hsrc & ->).
  cbn [fst snd data]. exists b.
  assert (Hkeeps : forall q n, fs !! q = Some n -> fs1 !! q = Some n)
    by (intros q n; by apply (mkdir_recursive_keeps dirname _ _ _ _ Hmk)).
  assert (Hfs : fs !! copy_source args = Some (File b)).
  { revert Hok. unfold copyFile, CopyFileSchema, access.
    destruct (String.eqb (copy_source args) ""); [discriminate|].
    destruct (String.eqb (copy_destination args) ""); [discriminate|].
    cbn [ret].
    destruct (fs !! copy_source args) as [n|] eqn:Hn; [|discriminate].
    intros _. apply Hkeeps in Hn. congruence. }
  split; [done|]. split; [by rewrite lookup_insert_eq|].
  split.
  { destruct (decide (copy_source args = copy_destination args)) as [->|Hne].
    - by rewrite lookup_insert_eq.
    - by rewrite lookup_insert_ne. }
  split; [done|]. split.
  - intros q n Hq Hn. rewrite lookup_insert_ne by done. by apply Hkeeps.
  - intros [n Hn]. revert Hkept. unfold exists_and_kept, access. rewrite Hn.
    destruct (copy_overwrite args) as [[|]|]; simpl; congruence.
Qed.

(** X21: a copy can fail after it has changed the file system: when the
    source is a directory, the copy fails, and the directories created for
    the destination stay. *)
Theorem failed_copy_keeps_directories args (fs fs1 : gmap string node) :
  copy_source args <> ""%string -> copy_destination args <> ""%string ->
  fs !! copy_source args = Some Directory ->
  fs !! copy_destination args = None ->
  mkdir_p dirname (dirname (copy_destination args)) fs = inr fs1 ->
  success (copyFile dirname args fs).1 = false
  /\ (copyFile dirname args fs).2 = fs1
  /\ fs1 !! dirname (copy_destination args) = Some Directory.
Proof.
  intros Hs Hd Hsrc Hdst Hmk.
  unfold copyFile, CopyFileSchema.
  rewrite (eqb_nonempty _ Hs), (eqb_nonempty _ Hd). cbn [ret].
  unfold access, exists_and_kept, access. rewrite Hsrc, Hdst, Hmk.
  unfold Fs_copyFile.
  rewrite (mkdir_recursive_keeps dirname _ _ _ _ Hmk _ _ Hsrc). simpl.
  repeat split. by apply (mkdir_recursive_makes dirname _ _ _ _ Hmk).
Qed.

Lemma Fs_rename_file src dest b (fs1 fs2 : gmap string node) :
  fs1 !! src = Some (File b) ->
  Fs_rename dirname rename_directory src dest fs1 = inr fs2 ->
  fs2 = <[dest := File b]> (delete src fs1).
Proof.
  unfold Fs_rename. intros ->.
  destruct (fs1 !! dest) as [[old|]|]; try discriminate.
  - by intros [= <-].
  - destruct (fs1 !! dirname dest) as [[?|]|]; try discriminate.
    by intros [= <-].
Qed.

(** X22: after a successful move of a regular file the destination holds
    its content, the source is gone unless it is the destination itself,
    the size reported is the length of the content and the other entries
    that were there are still there; a move onto an existing path is
    refused without overwrite, so also a move of a file onto itself. *)
Theorem moveFile_moves args (fs : gmap string node) (b : bytes) :
  fs !! move_source args = Some (File b) ->
  let r := moveFile dirname rename_directory args fs in
  (success r.1 = true ->
   r.2 !! move_destination args = Some (File b)
   /\ (move_source args <> move_destination args ->
       r.2 !! move_source args = None)
   /\ size <$> data r.1 = Some (length b)
   /\ (forall q n, q <> move_source args -> q <> move_destination args ->
         fs !! q = Some n -> r.2 !! q = Some n))
  /\ (move_source args <> ""%string -> move_destination args <> ""%string ->
      is_Some (fs !! move_destination args) ->
      default false (move_overwrite args) = false ->
      r = (destination_exists (move_destination args), fs)).
Proof.
  intros Hsrc r. subst r. split.
  - unfold moveFile, MoveFileSchema.
    destruct (String.eqb (move_source args) ""); [discriminate|].
    destruct (String.eqb (move_destination args) ""); [discriminate|].
    cbn [ret].
    destruct (access (move_source args) fs); [discriminate|].
    destruct (exists_and_kept _ _ fs) eqn:Hkept; [discriminate|].
    destruct (mkdir_p dirname _ fs) as [e|fs1] eqn:Hmk; [discriminate|].
    assert (Hkeeps : forall q n, fs !! q = Some n -> fs1 !! q = Some n)
      by (intros q n; by apply (mkdir_recursive_keeps dirname _ _ _ _ Hmk)).
    destruct (Fs_rename dirname rename_directory _ _ fs1) as [e|fs2] eqn:Hmv;
      [discriminate|].
    apply (Fs_rename_file _ _ b) in Hmv; [|by apply Hkeeps]. subst fs2.
    unfold stat. rewrite lookup_insert_eq. cbn [fst snd data success ret].
    intros _. split; [by rewrite lookup_insert_eq|].
    split; [|split; [done|]].
    + intros Hne. rewrite lookup_insert_ne by done. by rewrite lookup_delete_eq.
    + intros q n Hq1 Hq2 Hn.
      rewrite lookup_insert_ne by done. rewrite lookup_delete_ne by done.
      by apply Hkeeps.
  - intros Hs Hd [n Hn] Hover.
    unfold moveFile, MoveFileSchema.
    rewrite (eqb_nonempty _ Hs), (eqb_nonempty _ Hd). cbn [ret].
    unfold access, exists_and_kept, access. rewrite Hsrc, Hn, Hover.
    reflexivity.
Qed.

End CopyMove_more.

Section CopyMove_witnesses.
Import Fs CopyMove MoreExamples.

Lemma copyFile_copies_witness :
  let args := {| copy_source := "/e"; copy_destination := "/x";
                 copy_overwrite := None; copy_preserveTimestamps := None |} in
  (copyFile flat args small_tree).2 !! "/x"%string = Some (File [2%Z])
  /\ (copyFile flat args small_tree).2 !! "/e"%string = Some (File [2%Z]).
Proof.
  intros args.
  destruct (copyFile_copies flat args small_tree) as (b & Hb & Hx & He & _);
    [reflexivity|].
  assert (b = [2%Z]) as -> by (vm_compute in Hb; congruence).
  split; [exact Hx | exact He].
Defined.

Lemma failed_copy_keeps_directories_witness :
  let args := {| copy_source := "/d"; copy_destination := "/x";
                 copy_overwrite := None; copy_preserveTimestamps := None |} in
  small_tree !! "/"%string = None
  /\ success (copyFile flat args small_tree).1 = false
  /\ (copyFile flat args small_tree).2 !! "/"%string = Some Directory.
Proof.
  intros args. split; [reflexivity|].
  destruct (failed_copy_keeps_directories flat args small_tree
              (<["/"%string := Directory]> small_tree))
    as (Hfail & Hfs & Hdir);
    [discriminate | discriminate | reflexivity | reflexivity | reflexivity |].
  split; [exact Hfail|]. rewrite Hfs. exact Hdir.
Defined.

Lemma moveFile_moves_witness :
  let args := {| move_source := "/e"; move_destination := "/x";
                 move_overwrite := None |} in
  let r := moveFile flat (fun _ _ fs => inr fs) args small_tree in
  r.2 !! "/x"%string = Some (File [2%Z]) /\ r.2 !! "/e"%string = None.
Proof.
  intros args r.
  destruct (moveFile_moves flat (fun _ _ fs => inr fs) args small_tree [2%Z])
    as [Hmoved _]; [reflexivity|].
  destruct Hmoved as (Hx & He & _); [reflexivity|].
  split; [exact Hx | apply He; discriminate].
Defined.

End CopyMove_witnesses.
